(** * usage-cpcode.py: per-month CP-code usage report, shallow embedding

    The script joins the billing usage of every contract with the account
    group tree and the reporting groups, writes one row per CP code and
    prints per-reporting-group totals.  The remote API answers are the
    inputs of the model (record [Api]); everything the script computes
    from them is translated function by function below. *)

From Stdlib Require Import ZArith QArith List String Ascii Bool Lia.
From Stdlib Require Import DecimalString DecimalN DecimalFacts.
Import ListNotations.
Open Scope string_scope.
Open Scope Z_scope.

(* ================================================================== *)
(** * Python values the script relies on *)

Module Py.

(** Exceptions the modelled code can raise. *)
Inductive exn :=
| KeyError | TypeError | ValueError | AttributeError | NameError | IndexError
| RecursionError.

Inductive result (A : Type) :=
| Ok (a : A)
| Err (e : exn).
Arguments Ok {A} a.
Arguments Err {A} e.

Definition bind {A B} (r : result A) (k : A -> result B) : result B :=
  match r with
  | Ok a => k a
  | Err e => Err e
  end.

Definition is_ok {A} (r : result A) : bool :=
  match r with Ok _ => true | Err _ => false end.

(** ** str *)

(** [s[n:]] *)
Fixpoint drop (n : nat) (s : string) : string :=
  match n, s with
  | O, _ => s
  | S _, EmptyString => EmptyString
  | S k, String _ s' => drop k s'
  end.

(** [x in s] for two strings: [x] occurs in [s] at some offset. *)
Fixpoint contains (x s : string) : bool :=
  String.prefix x s
  || match s with
     | EmptyString => false
     | String _ s' => contains x s'
     end.

(** Left-to-right scan of [str.replace] for a non-empty pattern; [skip]
    counts the characters of a match that are still to be consumed. *)
Fixpoint replace_from (skip : nat) (old new s : string) : string :=
  match s with
  | EmptyString => EmptyString
  | String c s' =>
      match skip with
      | S k => replace_from k old new s'
      | O =>
          if String.prefix old s
          then new ++ replace_from (String.length old - 1) old new s'
          else String c (replace_from 0 old new s')
      end
  end.

(** With an empty pattern [str.replace] puts [new] around every character. *)
Fixpoint interleave (new s : string) : string :=
  match s with
  | EmptyString => new
  | String c s' => new ++ String c (interleave new s')
  end.

(** [s.replace(old, new)] *)
Definition replace (s old new : string) : string :=
  match old with
  | EmptyString => interleave new s
  | String _ _ => replace_from 0 old new s
  end.

(** [s.split(sep)] for a one-character separator. *)
Fixpoint split (sep : ascii) (s : string) : list string :=
  match s with
  | EmptyString => [EmptyString]
  | String c s' =>
      if Ascii.eqb c sep then EmptyString :: split sep s'
      else match split sep s' with
           | p :: ps => String c p :: ps
           | [] => [String c EmptyString]
           end
  end.

(** ** int(str) *)

Definition is_digit (c : ascii) : bool :=
  let n := nat_of_ascii c in (48 <=? n)%nat && (n <=? 57)%nat.

(** The blanks [int] skips around a literal: tab, line feed, vertical tab,
    form feed, carriage return and space. *)
Definition is_space (c : ascii) : bool :=
  let n := nat_of_ascii c in
  ((9 <=? n)%nat && (n <=? 13)%nat) || (n =? 32)%nat.

Fixpoint lstrip (s : string) : string :=
  match s with
  | EmptyString => EmptyString
  | String c s' => if is_space c then lstrip s' else s
  end.

Fixpoint rstrip (s : string) : string :=
  match s with
  | EmptyString => EmptyString
  | String c s' =>
      match rstrip s' with
      | EmptyString => if is_space c then EmptyString else String c EmptyString
      | r => String c r
      end
  end.

(** Digits of an integer literal, with the single underscores Python allows
    between two digits removed; [after_digit] tells whether the previous
    character was a digit. *)
Fixpoint literal_digits (after_digit : bool) (s : string) : option string :=
  match s with
  | EmptyString => if after_digit then Some EmptyString else None
  | String c s' =>
      if Ascii.eqb c "_"%char then
        if after_digit then literal_digits false s' else None
      else if is_digit c then
        option_map (String c) (literal_digits true s')
      else None
  end.

Definition nat_literal (s : string) : option Z :=
  match literal_digits false s with
  | Some ds =>
      match NilEmpty.uint_of_string ds with
      | Some d => Some (Z.of_N (N.of_uint d))
      | None => None
      end
  | None => None
  end.

(** [int(s)] in base ten. *)
Definition int (s : string) : result Z :=
  let body := rstrip (lstrip s) in
  let signed :=
    match body with
    | EmptyString => None
    | String c r =>
        if Ascii.eqb c "-"%char then option_map Z.opp (nat_literal r)
        else if Ascii.eqb c "+"%char then nat_literal r
        else nat_literal body
    end in
  match signed with
  | Some z => Ok z
  | None => Err ValueError
  end.

Fixpoint all_digits (s : string) : bool :=
  match s with
  | EmptyString => true
  | String c s' => is_digit c && all_digits s'
  end.

(** ** Format specification [0w] on an integer: [f"{z:0w}"] *)

Fixpoint zeros (n : nat) : string :=
  match n with
  | O => EmptyString
  | S k => String "0"%char (zeros k)
  end.

Definition zfill (w : nat) (digits : string) : string :=
  zeros (w - String.length digits) ++ digits.

Definition digits_of (n : N) : string := NilZero.string_of_uint (N.to_uint n).

(** The sign takes part in the width: [f"{-1:04}"] is [-001]. *)
Definition format0 (w : nat) (z : Z) : string :=
  if z <? 0 then String "-"%char (zfill (w - 1) (digits_of (Z.abs_N z)))
  else zfill w (digits_of (Z.abs_N z)).

End Py.

Import Py.

Notation "x <- e ;; k" := (Py.bind e (fun x => k))
  (at level 61, e at next level, right associativity).
Notation "' pat <- e ;; k" := (Py.bind e (fun x => match x with pat => k end))
  (at level 61, pat pattern, e at next level, right associativity).

(* ================================================================== *)
(** * Helper functions *)

(** [while mm > 12: mm -= 12; y += 1], at most [fuel] iterations. *)
Fixpoint while_above (fuel : nat) (y mm : Z) : Z * Z :=
  match fuel with
  | O => (y, mm)
  | S f => if 12 <? mm then while_above f (y + 1) (mm - 12) else (y, mm)
  end.

(** [while mm < 1: mm += 12; y -= 1], at most [fuel] iterations. *)
Fixpoint while_below (fuel : nat) (y mm : Z) : Z * Z :=
  match fuel with
  | O => (y, mm)
  | S f => if mm <? 1 then while_below f (y - 1) (mm + 12) else (y, mm)
  end.

(** [month_add(m, n)].  Each loop moves [mm] by twelve towards [1..12], so
    [|mm| + 1] iterations are more than either loop can use (lemmas
    [while_above_exit] and [while_below_exit]). *)
Definition month_add (m : string) (n : Z) : result string :=
  match Py.split "-"%char m with
  | [y; mm] =>
      y <- Py.int y ;;
      mm <- Py.int mm ;;
      let mm := mm + n in
      let '(y, mm) := while_above (S (Z.abs_nat mm)) y mm in
      let '(y, mm) := while_below (S (Z.abs_nat mm)) y mm in
      Ok (Py.format0 4 y ++ "-" ++ Py.format0 2 mm)
  | _ => Err ValueError
  end.

(** A month string as the script expects it: four digits, a dash, two
    digits that spell a month between 01 and 12. *)
Definition is_month (m : string) : bool :=
  match m with
  | String a (String b (String c (String d (String "-"
      (String e (String f EmptyString)))))) =>
      Py.is_digit a && Py.is_digit b && Py.is_digit c && Py.is_digit d
      && Py.is_digit e && Py.is_digit f
      && match Py.int (String e (String f EmptyString)) with
         | Ok v => (1 <=? v) && (v <=? 12)
         | Err _ => false
         end
  | _ => false
  end.

(** Months elapsed since 0000-01, for strings accepted by [is_month]. *)
Definition month_index (m : string) : Z :=
  match Py.split "-"%char m with
  | [y; mm] =>
      match Py.int y, Py.int mm with
      | Ok y, Ok mm => 12 * y + (mm - 1)
      | _, _ => 0
      end
  | _ => 0
  end.

(* ================================================================== *)
(** * Identifier normalisation *)

(** [raw.replace(prefix, "")], the form used on contract and group ids
    before they become keys or request parameters. *)
Definition strip_prefix (raw prefix : string) : string := Py.replace raw prefix "".

(** [contractId[4:]], the form [rootContract] uses. *)
Definition strip4 (contractId : string) : string := Py.drop 4 contractId.

(* ================================================================== *)
(** * Dictionaries and sets

    A Python [dict] keeps its keys in insertion order, and assigning to a
    key that is already there keeps the key where it is.  The rows of the
    report come out in the iteration order of two such dictionaries. *)

Module Dict.
Section Dict.
Context {K V : Type} (eqb : K -> K -> bool).

Definition t := list (K * V).

(** [d.get(k)] *)
Fixpoint get (k : K) (d : t) : option V :=
  match d with
  | [] => None
  | (k', v) :: d' => if eqb k k' then Some v else get k d'
  end.

(** [d[k] = v] *)
Fixpoint set (k : K) (v : V) (d : t) : t :=
  match d with
  | [] => [(k, v)]
  | (k', v') :: d' => if eqb k k' then (k', v) :: d' else (k', v') :: set k v d'
  end.

(** [k in d] *)
Definition mem (k : K) (d : t) : bool :=
  match get k d with Some _ => true | None => false end.

(** [d[k]] *)
Definition getitem (k : K) (d : t) : result V :=
  match get k d with Some v => Ok v | None => Err KeyError end.

Definition keys (d : t) : list K := map fst d.
Definition values (d : t) : list V := map snd d.
End Dict.
End Dict.

(** [m[k].append(x)] when [k] is in [m], [m[k] = [x]] otherwise. *)
Definition append_at {K V} (eqb : K -> K -> bool) (k : K) (x : V)
    (m : Dict.t (K := K) (V := list V)) : Dict.t :=
  match Dict.get eqb k m with
  | Some l => Dict.set eqb k (l ++ [x])%list m
  | None => Dict.set eqb k [x] m
  end.

(** [k in s] for a [set] of integers. *)
Definition set_mem (k : Z) (s : list Z) : bool := existsb (Z.eqb k) s.

(* ================================================================== *)
(** * API answers (the JSON the script reads) *)

(** Item of [/papi/v1/contracts]. *)
Record Contract := { contractId : string }.

(** Entries of [cpcode["contracts"]] and [cpcode["products"]]. *)
Record ContractRef := { status : string }.
Record ProductRef := { productId : string }.

(** Item of [/cprg/v1/cpcodes]; [accessGroup_contractId] is
    [cpcode["accessGroup"]["contractId"]]. *)
Record CpCode := {
  cpcodeId : Z;
  cpcodeName : string;
  accessGroup_contractId : string;
  contracts : list ContractRef;
  products : list ProductRef
}.

(** Item of [/papi/v1/groups]; [parentGroupId] is [None] when the key is
    not in the object. *)
Record Group := {
  groupId : string;
  groupName : string;
  parentGroupId : option string;
  contractIds : list string
}.

(** A group after [listAccountGroups] has stored ["contractId"] and
    ["path"] in it. *)
Record AccountGroup := {
  group : Group;
  rootContractId : option string;
  path : list string
}.

(** Item of [/cprg/v1/reporting-groups]; each contract of the group is
    given by the [cpcodeId]s of its [cpcodes]. *)
Record RepGroup := {
  reportingGroupName : string;
  rg_contracts : list (list Z)
}.

(** Usage answer: [usagePeriods] / [cpCodeStats] / [stats]. *)
Record Stat := { statType : string; value : Q }.
Record CpCodeStat := { cpCode : Z; stats : list Stat }.
Record UsagePeriod := { cpCodeStats : list CpCodeStat }.

(** One statistic of [getCpStatistics]: [{"cpcode", "hits", "gb"}]. *)
Record CpStat := { st_cpcode : Z; st_hits : option Q; st_gb : option Q }.

(** The answers of the endpoints.  [papi_cpcodes contractId groupId] lists
    the [cpcodeId] strings of [/papi/v1/cpcodes]; [billing_usage] is [None]
    on status 204. *)
Record Api := {
  papi_contracts : list Contract;
  cprg_cpcodes : list CpCode;
  papi_cpcodes : string -> string -> list string;
  cprg_reporting_groups : list RepGroup;
  papi_groups : list Group;
  billing_usage : string -> string -> string -> string -> option (list UsagePeriod)
}.

(* ================================================================== *)
(** * Akamai API functions and manipulation *)

(** [createMapCpcodeRepGroup] *)
Definition createMapCpcodeRepGroup (api : Api) : Dict.t (K := Z) (V := list RepGroup) :=
  fold_left
    (fun repgroupMap rg =>
       fold_left
         (fun repgroupMap contract =>
            fold_left
              (fun repgroupMap cpcodeId => append_at Z.eqb cpcodeId rg repgroupMap)
              contract repgroupMap)
         (rg_contracts rg) repgroupMap)
    (cprg_reporting_groups api) [].

(** First group of the list with the given id: the [for x in groups] scans
    of [rootContract] and [groupPath] stop at the first match. *)
Definition find_group (gid : string) (groups : list Group) : option Group :=
  find (fun x => String.eqb (groupId x) gid) groups.

(** [rootContract(group, groups)]; [depth] is the number of calls the
    interpreter still allows on the stack. *)
Fixpoint rootContract (depth : nat) (g : Group) (groups : list Group)
  : result (option string) :=
  match depth with
  | O => Err RecursionError
  | S d =>
      match match parentGroupId g with
            | Some p => find_group p groups
            | None => None
            end with
      | Some x => rootContract d x groups
      | None =>
          Ok (find (fun contractId => Py.contains (Py.drop 4 contractId) (groupName g))
                (contractIds g))
      end
  end.

(** [groupPath(groupId, groups)] *)
Fixpoint groupPath (depth : nat) (gid : string) (groups : list Group)
  : result (list string) :=
  match depth with
  | O => Err RecursionError
  | S d =>
      match find_group gid groups with
      | Some g =>
          match parentGroupId g with
          | Some p => parent <- groupPath d p groups ;; Ok (parent ++ [groupName g])%list
          | None => Ok [groupName g]
          end
      | None => Ok []
      end
  end.

(** The loop of [listAccountGroups] over the groups still to resolve. *)
Fixpoint resolveGroups (depth : nat) (todo groups : list Group)
  : result (list AccountGroup) :=
  match todo with
  | [] => Ok []
  | g :: rest =>
      c <- rootContract depth g groups ;;
      p <- groupPath depth (groupId g) groups ;;
      resolved <- resolveGroups depth rest groups ;;
      Ok ({| group := g; rootContractId := c; path := p |} :: resolved)
  end.

(** [listAccountGroups] *)
Definition listAccountGroups (depth : nat) (api : Api) : result (list AccountGroup) :=
  resolveGroups depth (papi_groups api) (papi_groups api).

(** [getUsageByCpCode(contractId, productId, start)], [end] left to its
    default. *)
Definition getUsageByCpCode (api : Api) (contractId productId start : string)
  : result (option (list UsagePeriod)) :=
  end_ <- month_add start 1 ;;
  Ok (billing_usage api contractId productId start end_).

(** The [for s in stat["stats"]] loop: the last "Bytes" and the last "Hits"
    value, as the pair [(gb, hits)]. *)
Definition scanStats (ss : list Stat) : option Q * option Q :=
  fold_left
    (fun '(gb, hits) s =>
       if String.eqb (statType s) "Bytes" then (Some (value s), hits)
       else if String.eqb (statType s) "Hits" then (gb, Some (value s))
       else (gb, hits))
    ss (None, None).

(** [getCpStatistics(contract, product, month)] *)
Definition getCpStatistics (api : Api) (contract product month : string)
  : result (list CpStat) :=
  usage <- getUsageByCpCode api contract product month ;;
  match usage with
  | Some usagePeriods =>
      Ok (flat_map
            (fun u =>
               map (fun stat =>
                      let '(gb, hits) := scanStats (stats stat) in
                      {| st_cpcode := cpCode stat; st_hits := hits; st_gb := gb |})
                   (cpCodeStats u))
            usagePeriods)
  | None => Ok []
  end.

(* ================================================================== *)
(** * The report: [cptrafficPerMonth] *)

(** A key of a row [dict]: not there, or there with a value that may be
    [None]. *)
Inductive field (A : Type) :=
| Missing
| Present (v : option A).
Arguments Missing {A}.
Arguments Present {A} v.

(** A row of [traffic]. *)
Record Row := {
  row_contract : string;
  row_cpcode : Z;
  row_name : string;
  row_groupPath : list string;
  row_repGroups : list string;
  row_hits : field Q;
  row_gb : field Q
}.

(** The variable [cpcodeId] of [cptrafficPerMonth].  It is the loop
    variable of the contract loop, then the id of the last CP code seen in
    a group, then the id of the last statistic read. *)
Inductive cpcodeId_var :=
| Unbound
| ContractItem (c : Contract)
| CpcodeInt (z : Z).

(** [addedCpCodes.add(cpcodeId)]; a [dict] is not hashable. *)
Definition set_add (v : cpcodeId_var) (s : list Z) : result (list Z) :=
  match v with
  | Unbound => Err NameError
  | ContractItem _ => Err TypeError
  | CpcodeInt z => Ok (z :: s)
  end.

Definition DELIVERY_PRODUCTS : list string := ["Site_Accel::Site_Accel"].

(** The maps built before any usage is read. *)
Record Maps := {
  contractMap : Dict.t (K := string) (V := Contract);
  cpcodeMap : Dict.t (K := Z) (V := CpCode);
  groupmap : Dict.t (K := Z) (V := AccountGroup);
  mapCpcodeAccgroup : Dict.t (K := Z) (V := list Z);
  mapCpcodeRepgroup : Dict.t (K := Z) (V := list RepGroup)
}.

(** [for cpcodeId in contracts["contracts"]["items"]: ...] *)
Fixpoint contractsIndex (items : list Contract)
    (contractMap : Dict.t (K := string) (V := Contract)) (var : cpcodeId_var)
  : Dict.t (K := string) (V := Contract) * cpcodeId_var :=
  match items with
  | [] => (contractMap, var)
  | c :: rest =>
      contractsIndex rest (Dict.set String.eqb (contractId c) c contractMap)
        (ContractItem c)
  end.

(** [for cpcode in cpcodes: cpcodeMap[cpcode["cpcodeId"]] = cpcode] *)
Definition cpcodesIndex (cpcodes : list CpCode) : Dict.t (K := Z) (V := CpCode) :=
  fold_left (fun m cpcode => Dict.set Z.eqb (cpcodeId cpcode) cpcode m) cpcodes [].

(** [for cpi in cpcodesOfGroup: ...] *)
Fixpoint groupCpcodesLoop (gid : Z) (cpcodesOfGroup : list string)
    (acc : Dict.t (K := Z) (V := list Z)) (var : cpcodeId_var)
  : result (Dict.t (K := Z) (V := list Z) * cpcodeId_var) :=
  match cpcodesOfGroup with
  | [] => Ok (acc, var)
  | cpi :: rest =>
      id <- Py.int cpi ;;
      groupCpcodesLoop gid rest (append_at Z.eqb id gid acc) (CpcodeInt id)
  end.

(** [for grp in accountGroups: ...] *)
Fixpoint groupsLoop (api : Api) (accountGroups : list AccountGroup)
    (gm : Dict.t (K := Z) (V := AccountGroup))
    (acc : Dict.t (K := Z) (V := list Z)) (var : cpcodeId_var)
  : result (Dict.t (K := Z) (V := AccountGroup)
            * Dict.t (K := Z) (V := list Z) * cpcodeId_var) :=
  match accountGroups with
  | [] => Ok (gm, acc, var)
  | grp :: rest =>
      gid <- Py.int (Py.replace (groupId (group grp)) "grp_" "") ;;
      let gm := Dict.set Z.eqb gid grp gm in
      match rootContractId grp with
      | None => Err AttributeError
      | Some c =>
          let contractId := Py.replace c "ctr_" "" in
          '(acc, var) <- groupCpcodesLoop gid
                           (papi_cpcodes api contractId (groupId (group grp)))
                           acc var ;;
          groupsLoop api rest gm acc var
      end
  end.

(** Everything [cptrafficPerMonth] does before [traffic = []]. *)
Definition buildMaps (depth : nat) (api : Api) : result (Maps * cpcodeId_var) :=
  let '(contractMap, var) := contractsIndex (papi_contracts api) [] Unbound in
  let cpcodeMap := cpcodesIndex (cprg_cpcodes api) in
  accountGroups <- listAccountGroups depth api ;;
  '(gm, acc, var) <- groupsLoop api accountGroups [] [] var ;;
  Ok ({| contractMap := contractMap;
         cpcodeMap := cpcodeMap;
         groupmap := gm;
         mapCpcodeAccgroup := acc;
         mapCpcodeRepgroup := createMapCpcodeRepGroup api |}, var).

(** [for gid in groupId: if len(groupmap[gid]["path"]) == 2: ...], the loop
    both branches of the report run to fill [groupPath]. *)
Fixpoint firstLevelLoop (gm : Dict.t (K := Z) (V := AccountGroup))
    (gids : list Z) (groupPath : list string) : result (list string) :=
  match gids with
  | [] => Ok groupPath
  | gid :: rest =>
      grp <- Dict.getitem Z.eqb gid gm ;;
      if Nat.eqb (List.length (path grp)) 2 then
        match nth_error (path grp) 1 with
        | Some p1 => firstLevelLoop gm rest (groupPath ++ [p1])%list
        | None => Err IndexError
        end
      else firstLevelLoop gm rest groupPath
  end.

Definition repgroupnames (m : Maps) (cpcodeId : Z) : list string :=
  match Dict.get Z.eqb cpcodeId (mapCpcodeRepgroup m) with
  | Some rgs => map reportingGroupName rgs
  | None => []
  end.

(** Body of [for cpstat in cpstats], up to the row it appends. *)
Definition usageRow (m : Maps) (cpstat : CpStat) : result Row :=
  let cpcodeId := st_cpcode cpstat in
  cpcode <- Dict.getitem Z.eqb cpcodeId (cpcodeMap m) ;;
  let contractId := Py.replace (accessGroup_contractId cpcode) "ctr_" "" in
  groupId <- Dict.getitem Z.eqb cpcodeId (mapCpcodeAccgroup m) ;;
  groupPath <- firstLevelLoop (groupmap m) groupId [] ;;
  Ok {| row_contract := contractId;
        row_cpcode := cpcodeId;
        row_name := cpcodeName cpcode;
        row_groupPath := groupPath;
        row_repGroups := repgroupnames m cpcodeId;
        row_hits := Present (st_hits cpstat);
        row_gb := Present (st_gb cpstat) |}.

(** [for cpstat in cpstats: ...] *)
Fixpoint statsLoop (m : Maps) (cpstats : list CpStat) (traffic : list Row)
    (var : cpcodeId_var) : result (list Row * cpcodeId_var) :=
  match cpstats with
  | [] => Ok (traffic, var)
  | cpstat :: rest =>
      row <- usageRow m cpstat ;;
      statsLoop m rest (traffic ++ [row])%list (CpcodeInt (st_cpcode cpstat))
  end.

(** [for contract in contractMap: ...]; the [add] is a statement of this
    loop, after the loop over the statistics. *)
Fixpoint usageLoop (api : Api) (m : Maps) (product month : string)
    (contractKeys : list string) (traffic : list Row) (addedCpCodes : list Z)
    (var : cpcodeId_var) : result (list Row * list Z * cpcodeId_var) :=
  match contractKeys with
  | [] => Ok (traffic, addedCpCodes, var)
  | contract :: rest =>
      cpstats <- getCpStatistics api (Py.replace contract "ctr_" "") product month ;;
      '(traffic, var) <- statsLoop m cpstats traffic var ;;
      addedCpCodes <- set_add var addedCpCodes ;;
      usageLoop api m product month rest traffic addedCpCodes var
  end.

(** The two filters of the branch for CP codes without traffic. *)
Definition validContract (cpcode : CpCode) : bool :=
  existsb (fun contract => String.eqb (status contract) "ongoing") (contracts cpcode).

Definition validProduct (cpcode : CpCode) : bool :=
  existsb (fun product => existsb (String.eqb (productId product)) DELIVERY_PRODUCTS)
    (products cpcode).

(** Body of [if cpcodeId not in addedCpCodes]; [None] is [continue]. *)
Definition noTrafficRow (m : Maps) (cpcodeId : Z) (cpcode : CpCode)
  : result (option Row) :=
  let contractId := Py.replace (accessGroup_contractId cpcode) "ctr_" "" in
  if negb (validContract cpcode) then Ok None
  else if negb (validProduct cpcode) then Ok None
  else
    groupId <- Dict.getitem Z.eqb cpcodeId (mapCpcodeAccgroup m) ;;
    groupPath <- firstLevelLoop (groupmap m) groupId [] ;;
    Ok (Some {| row_contract := contractId;
                row_cpcode := cpcodeId;
                row_name := cpcodeName cpcode;
                row_groupPath := groupPath;
                row_repGroups := repgroupnames m cpcodeId;
                row_hits := Missing;
                row_gb := Missing |}).

(** [for cpcodeId, cpcode in cpcodeMap.items(): ...]; [continue] skips the
    [add] that ends the body. *)
Fixpoint noTrafficLoop (m : Maps) (items : list (Z * CpCode))
    (traffic : list Row) (addedCpCodes : list Z) : result (list Row) :=
  match items with
  | [] => Ok traffic
  | (cpcodeId, cpcode) :: rest =>
      if set_mem cpcodeId addedCpCodes then
        noTrafficLoop m rest traffic (cpcodeId :: addedCpCodes)
      else
        r <- noTrafficRow m cpcodeId cpcode ;;
        match r with
        | Some row => noTrafficLoop m rest (traffic ++ [row])%list (cpcodeId :: addedCpCodes)
        | None => noTrafficLoop m rest traffic addedCpCodes
        end
  end.

(** The part of [cptrafficPerMonth] that reads the usage: the rows so far
    and [addedCpCodes]. *)
Definition usagePhase (api : Api) (m : Maps) (var : cpcodeId_var)
    (product month : string) : result (list Row * list Z) :=
  '(traffic, addedCpCodes, _) <-
     usageLoop api m product month (Dict.keys (contractMap m)) [] [] var ;;
  Ok (traffic, addedCpCodes).

(** [cptrafficPerMonth(productId, month, includeNoTraffic)] *)
Definition cptrafficPerMonth (depth : nat) (api : Api) (product month : string)
    (includeNoTraffic : bool) : result (list Row) :=
  '(m, var) <- buildMaps depth api ;;
  '(traffic, addedCpCodes) <- usagePhase api m var product month ;;
  if negb includeNoTraffic then noTrafficLoop m (cpcodeMap m) traffic addedCpCodes
  else Ok traffic.

(** The statistics the usage loop reads, contract by contract, each with
    the key of [contractMap] it was fetched for. *)
Fixpoint usageFeed (api : Api) (product month : string) (contractKeys : list string)
  : result (list (string * CpStat)) :=
  match contractKeys with
  | [] => Ok []
  | contract :: rest =>
      cpstats <- getCpStatistics api (Py.replace contract "ctr_" "") product month ;;
      feed <- usageFeed api product month rest ;;
      Ok (map (pair contract) cpstats ++ feed)%list
  end.

(* ================================================================== *)
(** * Summary of reporting groups (the [__main__] block) *)

(** Value of [sumRepGroups]: [{"hits": ..., "gb": ...}]. *)
Record Bucket := { hits : Q; gb : Q }.

(** [row.get(key, default)]: the default only replaces a key that is not
    there. *)
Definition row_get (f : field Q) (default : Q) : option Q :=
  match f with
  | Missing => Some default
  | Present v => v
  end.

(** [a + b], [a - b] and [b * n] where [b] may be [None].  Numbers are
    rationals and the operations exact: that is Python's arithmetic on the
    integers of the hit counts; the rounding of the floating-point byte
    volumes is not represented. *)
Definition num_add (a : Q) (b : option Q) : result Q :=
  match b with Some b => Ok (a + b)%Q | None => Err TypeError end.

Definition num_sub (a : Q) (b : option Q) : result Q :=
  match b with Some b => Ok (a - b)%Q | None => Err TypeError end.

Definition num_mul (b : option Q) (n : Z) : result (option Q) :=
  match b with Some b => Ok (Some (b * inject_Z n)%Q) | None => Err TypeError end.

(** [if key not in sumRepGroups: sumRepGroups[key] = {"hits": 0, "gb": 0}] *)
Definition touch (key : string) (s : Dict.t (K := string) (V := Bucket)) : Dict.t :=
  if Dict.mem String.eqb key s then s
  else Dict.set String.eqb key {| hits := 0; gb := 0 |} s.

(** The two [+=] on the bucket of [key]. *)
Definition credit (key : string) (row : Row) (s : Dict.t (K := string) (V := Bucket))
  : result (Dict.t (K := string) (V := Bucket)) :=
  let s := touch key s in
  b <- Dict.getitem String.eqb key s ;;
  h <- num_add (hits b) (row_get (row_hits row) 0) ;;
  g <- num_add (gb b) (row_get (row_gb row) 0) ;;
  Ok (Dict.set String.eqb key {| hits := h; gb := g |} s).

(** The two [-=] on the bucket [#Multiple]. *)
Definition debit (n : Z) (row : Row) (s : Dict.t (K := string) (V := Bucket))
  : result (Dict.t (K := string) (V := Bucket)) :=
  let s := touch "#Multiple" s in
  b <- Dict.getitem String.eqb "#Multiple" s ;;
  dh <- num_mul (row_get (row_hits row) 0) n ;;
  h <- num_sub (hits b) dh ;;
  dg <- num_mul (row_get (row_gb row) 0) n ;;
  g <- num_sub (gb b) dg ;;
  Ok (Dict.set String.eqb "#Multiple" {| hits := h; gb := g |} s).

(** [for rg in row["repGroups"]: ...] *)
Fixpoint creditAll (rgs : list string) (row : Row)
    (s : Dict.t (K := string) (V := Bucket)) : result (Dict.t (K := string) (V := Bucket)) :=
  match rgs with
  | [] => Ok s
  | rg :: rest => s <- credit rg row s ;; creditAll rest row s
  end.

(** Body of [for row in x], without the CSV line. *)
Definition sumRow (row : Row) (s : Dict.t (K := string) (V := Bucket))
  : result (Dict.t (K := string) (V := Bucket)) :=
  s <- creditAll (row_repGroups row) row s ;;
  s <- (if Nat.eqb (List.length (row_repGroups row)) 0
        then credit "#None" row s else Ok s) ;;
  if Nat.ltb 1 (List.length (row_repGroups row))
  then debit (Z.of_nat (List.length (row_repGroups row)) - 1) row s
  else Ok s.

(** [sumRepGroups] after the loop over the rows. *)
Fixpoint sumRepGroups (rows : list Row) (s : Dict.t (K := string) (V := Bucket))
  : result (Dict.t (K := string) (V := Bucket)) :=
  match rows with
  | [] => Ok s
  | row :: rest => s <- sumRow row s ;; sumRepGroups rest s
  end.

(** Sum of one column over all the buckets of the table, and over the
    statistics of the rows (a missing statistic counts for nothing). *)
Definition total (col : Bucket -> Q) (s : Dict.t (K := string) (V := Bucket)) : Q :=
  fold_right (fun b acc => (col b + acc)%Q) 0%Q (Dict.values s).

Definition stat_or_zero (f : field Q) : Q :=
  match f with
  | Present (Some v) => v
  | _ => 0%Q
  end.

Definition rows_total (col : Row -> field Q) (rows : list Row) : Q :=
  fold_right (fun r acc => (stat_or_zero (col r) + acc)%Q) 0%Q rows.

(** A statistic the summary can add: a number, or a key that is absent. *)
Definition summable (f : field Q) : bool :=
  match f with
  | Present None => false
  | _ => true
  end.

(* ================================================================== *)
(** * Notions used to state the properties *)

(** [x] occurs in [s]: [s] is [a ++ x ++ b] for some [a] and [b]. *)
Definition occurs_in (x s : string) : Prop :=
  exists a b, s = a ++ x ++ b.

(** [p] is the parent that the scan of [groups] finds for [gid]. *)
Definition parent_edge (groups : list Group) (p gid : string) : Prop :=
  exists g, find_group gid groups = Some g /\ parentGroupId g = Some p.

(** The scan [rootContract] makes of a group's own contracts. *)
Definition ownContract (g : Group) : option string :=
  find (fun contractId => Py.contains (Py.drop 4 contractId) (groupName g))
    (contractIds g).

(** [root] is where [rootContract] stops when it starts from [g]: the
    first group up the parent references whose parent is absent or matches
    no group of the list. *)
Inductive resolves_to (groups : list Group) : Group -> Group -> Prop :=
| resolves_here g :
    match parentGroupId g with
    | Some p => find_group p groups = None
    | None => True
    end ->
    resolves_to groups g g
| resolves_up g p x root :
    parentGroupId g = Some p ->
    find_group p groups = Some x ->
    resolves_to groups x root ->
    resolves_to groups g root.

(** The list a map of lists holds for a key, empty when the key is not
    there; and the maps that hold no empty list. *)
Definition entries {V} (m : Dict.t (K := Z) (V := list V)) (e : Z) : list V :=
  match Dict.get Z.eqb e m with
  | Some l => l
  | None => []
  end.

Definition no_empty {V} (m : Dict.t (K := Z) (V := list V)) : Prop :=
  forall e, Dict.get Z.eqb e m <> Some [].

(** The hits and the volume the table holds under a name, zero when there
    is no bucket of that name. *)
Definition hits_of (s : Dict.t (K := string) (V := Bucket)) (k : string) : Q :=
  match Dict.get String.eqb k s with
  | Some b => hits b
  | None => 0%Q
  end.

Definition gb_of (s : Dict.t (K := string) (V := Bucket)) (k : string) : Q :=
  match Dict.get String.eqb k s with
  | Some b => gb b
  | None => 0%Q
  end.


(** A hit count as the usage gives it: an integer, or a key that is
    absent. *)
Definition whole (f : field Q) : Prop :=
  match f with
  | Missing => True
  | Present (Some q) => exists z, q = inject_Z z
  | Present None => False
  end.

(** Both statistics of a row can be added. *)
Definition summable_row (r : Row) : bool :=
  summable (row_hits r) && summable (row_gb r).

(** The group ids under which the group loop files CP code [e]: for every
    group, in order, its numeric id once for every entry of the group's
    CP-code listing that reads as [e]. *)
Definition filed_under (api : Api) (e : Z) (ags : list AccountGroup) : list Z :=
  flat_map
    (fun a =>
       match Py.int (Py.replace (groupId (group a)) "grp_" ""), rootContractId a with
       | Ok gid, Some c =>
           flat_map
             (fun cpi =>
                match Py.int cpi with
                | Ok id => if Z.eqb e id then [gid] else []
                | Err _ => []
                end)
             (papi_cpcodes api (Py.replace c "ctr_" "") (groupId (group a)))
       | _, _ => []
       end)
    ags.

(** Every group id a CP code is filed under is a key of [groupmap], and no
    CP code is filed under an empty list. *)
Definition memberships_known (gm : Dict.t (K := Z) (V := AccountGroup))
    (acc : Dict.t (K := Z) (V := list Z)) : Prop :=
  forall e gids,
    Dict.get Z.eqb e acc = Some gids ->
    gids <> [] /\ forall gid, In gid gids -> Dict.mem Z.eqb gid gm = true.

(** The reporting groups that list CP code [e], in the order of the answer,
    each as many times as it lists [e] (over all its contracts). *)
Definition claimed_by (e : Z) (rgs : list RepGroup) : list RepGroup :=
  flat_map (fun rg => repeat rg (count_occ Z.eq_dec (List.concat (rg_contracts rg)) e))
    rgs.

(** What one group of a CP code adds to [groupPath]: [path[1]] when the
    path has exactly two names, nothing otherwise. *)
Definition first_level (g : AccountGroup) : list string :=
  if Nat.eqb (List.length (path g)) 2 then [nth 1 (path g) EmptyString] else [].

(** The groups [mapCpcodeAccgroup] lists for the CP code of [row], looked
    up in [groupmap], account for [row]'s [groupPath] one by one and in
    order. *)
Definition attributed (m : Maps) (row : Row) : Prop :=
  exists gids groups,
    Dict.get Z.eqb (row_cpcode row) (mapCpcodeAccgroup m) = Some gids /\
    Forall2 (fun gid g => Dict.get Z.eqb gid (groupmap m) = Some g) gids groups /\
    row_groupPath row = flat_map first_level groups.

(** The contract the catalog gives for the CP code of [row], normalised, is
    the contract of [row]. *)
Definition catalog_contract (m : Maps) (row : Row) : Prop :=
  exists cpcode,
    Dict.get Z.eqb (row_cpcode row) (cpcodeMap m) = Some cpcode /\
    row_contract row = strip_prefix (accessGroup_contractId cpcode) "ctr_".

(** The two filters of the no-traffic branch together. *)
Definition eligible (cpcode : CpCode) : bool :=
  validContract cpcode && validProduct cpcode.

(** An entry of [cpcodeMap] the no-traffic branch has to write: its key is
    not in [addedCpCodes] and it passes both filters. *)
Definition pending (addedCpCodes : list Z) (item : Z * CpCode) : bool :=
  negb (set_mem (fst item) addedCpCodes) && eligible (snd item).

(** A row written by the usage loop carries the keys [hits] and [gb]; a
    row of the no-traffic branch has neither. *)
Definition with_stats (r : Row) : bool :=
  match row_hits r with
  | Missing => false
  | Present _ => true
  end.

(** Rows of CP code [e] with, and without, statistics. *)
Definition stat_rows (e : Z) (traffic : list Row) : nat :=
  List.length (filter (fun r => Z.eqb (row_cpcode r) e && with_stats r) traffic).

Definition plain_rows (e : Z) (traffic : list Row) : nat :=
  List.length (filter (fun r => Z.eqb (row_cpcode r) e && negb (with_stats r)) traffic).

(** Statistics of CP code [e] in the usage read for all contracts. *)
Definition occurrences (e : Z) (feed : list (string * CpStat)) : nat :=
  List.length (filter (fun st => Z.eqb (st_cpcode (snd st)) e) feed).

(* ================================================================== *)
(** * Scenarios *)

Module Scenario.

Definition ongoing : ContractRef := {| status := "ongoing" |}.
Definition site_accel : ProductRef := {| productId := "Site_Accel::Site_Accel" |}.

Definition acme : Group :=
  {| groupId := "grp_1"; groupName := "1-ACME"; parentGroupId := None;
     contractIds := ["ctr_1"] |}.
Definition team : Group :=
  {| groupId := "grp_2"; groupName := "Team"; parentGroupId := Some "grp_1";
     contractIds := ["ctr_1"] |}.

(** A group whose parent is not in the list. *)
Definition shop : Group :=
  {| groupId := "grp_9"; groupName := "Shop 1-5C13O2";
     parentGroupId := Some "grp_404";
     contractIds := ["ctr_3-XYZ"; "ctr_1-5C13O2"] |}.

Definition site_a : CpCode :=
  {| cpcodeId := 100; cpcodeName := "Site-A"; accessGroup_contractId := "ctr_1";
     contracts := [ongoing]; products := [site_accel] |}.

Definition usage_of (cp : Z) (h g : Q) : CpCodeStat :=
  {| cpCode := cp;
     stats := [ {| statType := "Bytes"; value := g |};
                {| statType := "Hits"; value := h |} ] |}.

(** The example of the specification: CP code 100 under contract [ctr_1],
    member of group [grp_2], claimed by two reporting groups, with usage. *)
Definition example : Api :=
  {| papi_contracts := [ {| contractId := "ctr_1" |} ];
     cprg_cpcodes := [site_a];
     papi_cpcodes := fun c g =>
       if String.eqb c "1" && String.eqb g "grp_2" then ["100"] else [];
     cprg_reporting_groups :=
       [ {| reportingGroupName := "RG1"; rg_contracts := [[100]] |};
         {| reportingGroupName := "RG2"; rg_contracts := [[100]] |} ];
     papi_groups := [acme; team];
     billing_usage := fun c p s e =>
       if String.eqb c "1" && String.eqb s "2024-03" && String.eqb e "2024-04"
       then Some [ {| cpCodeStats := [usage_of 100 500000 12.5] |} ]
       else None |}.

(** CP code 100 in the usage of two contracts. *)
Definition two_contracts : Api :=
  {| papi_contracts := [ {| contractId := "ctr_1" |}; {| contractId := "ctr_2" |} ];
     cprg_cpcodes := [site_a];
     papi_cpcodes := fun c g =>
       if String.eqb c "1" && String.eqb g "grp_2" then ["100"] else [];
     cprg_reporting_groups := [];
     papi_groups := [acme; team];
     billing_usage := fun c p s e =>
       if String.eqb c "1" then Some [ {| cpCodeStats := [usage_of 100 5 1] |} ]
       else if String.eqb c "2" then Some [ {| cpCodeStats := [usage_of 100 7 2] |} ]
       else None |}.

(** The row the specification expects for its example. *)
Definition example_row : Row :=
  {| row_contract := "1"; row_cpcode := 100; row_name := "Site-A";
     row_groupPath := ["Team"]; row_repGroups := ["RG1"; "RG2"];
     row_hits := Present (Some 500000%Q); row_gb := Present (Some 12.5%Q) |}.

Definition site_a_row (h g : Q) : Row :=
  {| row_contract := "1"; row_cpcode := 100; row_name := "Site-A";
     row_groupPath := ["Team"]; row_repGroups := [];
     row_hits := Present (Some h); row_gb := Present (Some g) |}.

(** CP code 100 has usage, CP code 200 has none; the group lists 200
    before 100. *)
Definition mixed : Api :=
  {| papi_contracts := [ {| contractId := "ctr_1" |} ];
     cprg_cpcodes :=
       [ site_a;
         {| cpcodeId := 200; cpcodeName := "Site-B";
            accessGroup_contractId := "ctr_1";
            contracts := [ongoing]; products := [site_accel] |} ];
     papi_cpcodes := fun c g =>
       if String.eqb c "1" && String.eqb g "grp_2" then ["200"; "100"] else [];
     cprg_reporting_groups := [];
     papi_groups := [acme; team];
     billing_usage := fun c p s e =>
       Some [ {| cpCodeStats := [usage_of 100 5 1] |} ] |}.

Definition mixed_rows : list Row :=
  [ site_a_row 5 1;
    {| row_contract := "1"; row_cpcode := 200; row_name := "Site-B";
       row_groupPath := ["Team"]; row_repGroups := [];
       row_hits := Missing; row_gb := Missing |} ].

(** No usage at all for the only contract; CP code 100 is an ongoing
    delivery CP code of group [grp_2]. *)
Definition quiet : Api :=
  {| papi_contracts := [ {| contractId := "ctr_1" |} ];
     cprg_cpcodes := [site_a];
     papi_cpcodes := fun c g =>
       if String.eqb c "1" && String.eqb g "grp_2" then ["100"] else [];
     cprg_reporting_groups := [];
     papi_groups := [acme; team];
     billing_usage := fun c p s e => None |}.

(** Two CP codes with usage under one contract, 100 before 200. *)
Definition site_b : CpCode :=
  {| cpcodeId := 200; cpcodeName := "Site-B"; accessGroup_contractId := "ctr_1";
     contracts := [ongoing]; products := [site_accel] |}.

Definition busy : Api :=
  {| papi_contracts := [ {| contractId := "ctr_1" |} ];
     cprg_cpcodes := [site_a; site_b];
     papi_cpcodes := fun c g =>
       if String.eqb c "1" && String.eqb g "grp_2" then ["100"; "200"] else [];
     cprg_reporting_groups := [];
     papi_groups := [acme; team];
     billing_usage := fun c p s e =>
       Some [ {| cpCodeStats := [usage_of 100 5 1; usage_of 200 7 2] |} ] |}.

(** CP code 100 has usage and is in the catalog, but no group lists it. *)
Definition orphan : Api :=
  {| papi_contracts := [ {| contractId := "ctr_1" |} ];
     cprg_cpcodes := [site_a];
     papi_cpcodes := fun c g => [];
     cprg_reporting_groups := [];
     papi_groups := [acme; team];
     billing_usage := fun c p s e =>
       Some [ {| cpCodeStats := [usage_of 100 5 1] |} ] |}.

(** No usage and no CP code in any group. *)
Definition idle : Api :=
  {| papi_contracts := [ {| contractId := "ctr_1" |} ];
     cprg_cpcodes := [];
     papi_cpcodes := fun c g => [];
     cprg_reporting_groups := [];
     papi_groups := [acme; team];
     billing_usage := fun c p s e => None |}.

(** A top-level group whose name contains none of its contract ids. *)
Definition lab : Group :=
  {| groupId := "grp_7"; groupName := "Lab"; parentGroupId := None;
     contractIds := ["ctr_1-ABC"] |}.

Definition lab_only : Api :=
  {| papi_contracts := [];
     cprg_cpcodes := [];
     papi_cpcodes := fun c g => [];
     cprg_reporting_groups := [];
     papi_groups := [lab];
     billing_usage := fun c p s e => None |}.

(** The usage names CP code 999, which the catalog does not have. *)
Definition unlisted : Api :=
  {| papi_contracts := [ {| contractId := "ctr_1" |} ];
     cprg_cpcodes := [site_a];
     papi_cpcodes := fun c g =>
       if String.eqb c "1" && String.eqb g "grp_2" then ["100"; "999"] else [];
     cprg_reporting_groups := [];
     papi_groups := [acme; team];
     billing_usage := fun c p s e =>
       Some [ {| cpCodeStats := [usage_of 999 5 1] |} ] |}.

(** The same CP code without usage: it passes both filters of the
    no-traffic branch and still belongs to no group. *)
Definition orphan_quiet : Api :=
  {| papi_contracts := [];
     cprg_cpcodes := [site_a];
     papi_cpcodes := fun c g => [];
     cprg_reporting_groups := [];
     papi_groups := [acme; team];
     billing_usage := fun c p s e => None |}.

(** A row of the usage loop for a statistic that had "Bytes" but no
    "Hits". *)
Definition bytes_only : Row :=
  {| row_contract := "1"; row_cpcode := 100; row_name := "Site-A";
     row_groupPath := ["Team"]; row_repGroups := ["RG1"];
     row_hits := Present None; row_gb := Present (Some 12.5%Q) |}.

Definition bytes_only_usage : Api :=
  {| papi_contracts := [ {| contractId := "ctr_1" |} ];
     cprg_cpcodes := [site_a];
     papi_cpcodes := fun c g =>
       if String.eqb c "1" && String.eqb g "grp_2" then ["100"] else [];
     cprg_reporting_groups :=
       [ {| reportingGroupName := "RG1"; rg_contracts := [[100]] |} ];
     papi_groups := [acme; team];
     billing_usage := fun c p s e =>
       Some [ {| cpCodeStats :=
                   [ {| cpCode := 100;
                        stats := [ {| statType := "Bytes"; value := 12.5%Q |} ] |} ] |} ] |}.

End Scenario.

(** [month_add(month_add(m, n), -n)] *)
Definition month_roundtrip (m : string) (n : Z) : result string :=
  m' <- month_add m n ;;
  month_add m' (- n).

(* ================================================================== *)
(** * Properties *)

Example month_add_ex1 : month_add "2024-03" 1 = Ok "2024-04".
Proof. reflexivity. Qed.
Example month_add_ex2 : month_add "2024-01" (-1) = Ok "2023-12".
Proof. reflexivity. Qed.
Example month_add_ex3 : month_add "2024-11" 26 = Ok "2027-01".
Proof. reflexivity. Qed.
Example month_add_ex4 : month_add "0001-01" (-13) = Ok "-001-12".
Proof. reflexivity. Qed.
Example month_add_ex5 : month_add "-001-12" 13 = Err ValueError.
Proof. reflexivity. Qed.
Example month_add_ex6 : month_add "9999-12" 1 = Ok "10000-01".
Proof. reflexivity. Qed.
Example month_add_ex7 : month_add "10000-01" (-1) = Ok "9999-12".
Proof. reflexivity. Qed.

(* ------------------------------------------------------------------ *)
(** ** Decimal literals: [int] reads back what [format0] prints *)

Section Literals.

Lemma is_digit_not_space c : Py.is_digit c = true -> Py.is_space c = false.
Proof.
  unfold Py.is_digit, Py.is_space. intros H.
  apply andb_true_iff in H as [H1 H2].
  apply Nat.leb_le in H1. apply Nat.leb_le in H2.
  apply orb_false_iff; split.
  - apply andb_false_iff. right. apply Nat.leb_gt. lia.
  - apply Nat.eqb_neq. lia.
Qed.

Lemma is_digit_neq c c' :
  Py.is_digit c = true -> Py.is_digit c' = false -> Ascii.eqb c c' = false.
Proof.
  intros H H'. destruct (Ascii.eqb c c') eqn:E; [|reflexivity].
  apply Ascii.eqb_eq in E. congruence.
Qed.

Lemma lstrip_digits s : Py.all_digits s = true -> Py.lstrip s = s.
Proof.
  destruct s as [|c s]; simpl; [reflexivity|].
  intros H. apply andb_true_iff in H as [H _].
  now rewrite (is_digit_not_space _ H).
Qed.

Lemma rstrip_digits s : Py.all_digits s = true -> Py.rstrip s = s.
Proof.
  induction s as [|c s IH]; simpl; [reflexivity|].
  intros H. apply andb_true_iff in H as [Hc Hs].
  rewrite (IH Hs). destruct s; [|reflexivity].
  now rewrite (is_digit_not_space _ Hc).
Qed.

Lemma literal_digits_digits s :
  Py.all_digits s = true ->
  forall b, (s <> EmptyString \/ b = true) -> Py.literal_digits b s = Some s.
Proof.
  induction s as [|c s IH]; simpl; intros H b Hb.
  - destruct Hb as [Hb | ->]; [congruence | reflexivity].
  - apply andb_true_iff in H as [Hc Hs].
    rewrite (is_digit_neq c "_"%char Hc eq_refl), Hc.
    rewrite (IH Hs true) by (now right). reflexivity.
Qed.

Lemma int_digits s d :
  Py.all_digits s = true -> s <> EmptyString ->
  NilEmpty.uint_of_string s = Some d ->
  Py.int s = Ok (Z.of_N (N.of_uint d)).
Proof.
  intros H Hne Hd. unfold Py.int.
  rewrite (lstrip_digits _ H), (rstrip_digits _ H).
  destruct s as [|c s]; [congruence|].
  pose proof H as H'. simpl in H'. apply andb_true_iff in H' as [Hc _].
  rewrite (is_digit_neq c "-"%char Hc eq_refl).
  rewrite (is_digit_neq c "+"%char Hc eq_refl).
  unfold Py.nat_literal.
  rewrite (literal_digits_digits _ H false) by (left; congruence).
  now rewrite Hd.
Qed.

Lemma all_digits_string_of_uint d :
  Py.all_digits (NilEmpty.string_of_uint d) = true.
Proof. induction d; simpl; auto. Qed.

Lemma all_digits_app s t :
  Py.all_digits (s ++ t) = Py.all_digits s && Py.all_digits t.
Proof.
  induction s as [|c s IH]; simpl; [reflexivity|].
  now rewrite IH, andb_assoc.
Qed.

Lemma all_digits_zeros n : Py.all_digits (Py.zeros n) = true.
Proof. induction n; simpl; auto. Qed.

Lemma to_uint_nonnil n : N.to_uint n <> Decimal.Nil.
Proof.
  destruct n as [|p]; simpl; [discriminate|].
  apply DecimalPos.Unsigned.to_uint_nonnil.
Qed.

Lemma digits_of_eq n :
  Py.digits_of n = NilEmpty.string_of_uint (N.to_uint n).
Proof.
  unfold Py.digits_of, NilZero.string_of_uint.
  pose proof (to_uint_nonnil n). destruct (N.to_uint n); congruence.
Qed.

Lemma digits_of_nonempty n : Py.digits_of n <> EmptyString.
Proof.
  rewrite digits_of_eq. pose proof (to_uint_nonnil n).
  destruct (N.to_uint n); simpl; congruence.
Qed.

Lemma uint_of_zeros k s d :
  NilEmpty.uint_of_string s = Some d ->
  NilEmpty.uint_of_string (Py.zeros k ++ s) = Some (Nat.iter k Decimal.D0 d).
Proof.
  intros H. induction k as [|k IH]; simpl; [assumption|].
  now rewrite IH.
Qed.

Lemma of_uint_iter_D0 k d : N.of_uint (Nat.iter k Decimal.D0 d) = N.of_uint d.
Proof. induction k as [|k IH]; simpl; [reflexivity | exact IH]. Qed.

Lemma zfill_digits w n : Py.all_digits (Py.zfill w (Py.digits_of n)) = true.
Proof.
  unfold Py.zfill. rewrite all_digits_app, all_digits_zeros, digits_of_eq.
  apply all_digits_string_of_uint.
Qed.

Lemma app_nonempty_r s t : t <> EmptyString -> s ++ t <> EmptyString.
Proof. destruct s; simpl; [auto | discriminate]. Qed.

Lemma int_zfill w n : Py.int (Py.zfill w (Py.digits_of n)) = Ok (Z.of_N n).
Proof.
  rewrite (int_digits _ (Nat.iter (w - String.length (Py.digits_of n))
                           Decimal.D0 (N.to_uint n))).
  - now rewrite of_uint_iter_D0, DecimalN.Unsigned.of_to.
  - apply zfill_digits.
  - apply app_nonempty_r, digits_of_nonempty.
  - unfold Py.zfill. apply uint_of_zeros.
    rewrite digits_of_eq. apply NilEmpty.usu.
Qed.

(** A non-negative integer printed with any width reads back as itself. *)
Lemma int_format0 w z : 0 <= z -> Py.int (Py.format0 w z) = Ok z.
Proof.
  intros Hz. unfold Py.format0.
  destruct (z <? 0) eqn:E; [apply Z.ltb_lt in E; lia|].
  rewrite int_zfill. f_equal. rewrite N2Z.inj_abs_N. lia.
Qed.

Lemma format0_digits w z : 0 <= z -> Py.all_digits (Py.format0 w z) = true.
Proof.
  intros Hz. unfold Py.format0.
  destruct (z <? 0) eqn:E; [apply Z.ltb_lt in E; lia|]. apply zfill_digits.
Qed.

End Literals.

(* ------------------------------------------------------------------ *)
(** ** The printed form of a digit string *)

Section Printing.

Lemma length_string_of_uint d :
  String.length (NilEmpty.string_of_uint d) = Decimal.nb_digits d.
Proof. induction d; simpl; auto. Qed.

Lemma zeros_unorm d :
  d <> Decimal.Nil ->
  Py.zeros (Decimal.nb_digits d - Decimal.nb_digits (Decimal.unorm d))
    ++ NilEmpty.string_of_uint (Decimal.unorm d)
  = NilEmpty.string_of_uint d.
Proof.
  induction d as [|d IH| | | | | | | | |]; intros Hd;
    try (cbn [Decimal.unorm Decimal.nzhead];
         rewrite Nat.sub_diag; reflexivity).
  - congruence.
  - rewrite unorm_D0.
    destruct (Decimal.uint_eq_dec d Decimal.Nil) as [-> | Hn].
    + reflexivity.
    + pose proof (nb_digits_unorm d Hn) as Hle.
      cbn [Decimal.nb_digits].
      replace (S (Decimal.nb_digits d) - Decimal.nb_digits (Decimal.unorm d))%nat
        with (S (Decimal.nb_digits d - Decimal.nb_digits (Decimal.unorm d)))
        by lia.
      cbn [Py.zeros String.append NilEmpty.string_of_uint].
      now rewrite (IH Hn).
Qed.

Lemma uint_of_digit c d :
  Py.is_digit c = true -> exists d', uint_of_char c (Some d) = Some d'.
Proof.
  destruct c as [[] [] [] [] [] [] [] []]; cbv; intros H;
    try discriminate H; eexists; reflexivity.
Qed.

Lemma uint_of_digits s :
  Py.all_digits s = true -> exists d, NilEmpty.uint_of_string s = Some d.
Proof.
  induction s as [|c s IH]; simpl; intros H.
  - now exists Decimal.Nil.
  - apply andb_true_iff in H as [Hc Hs].
    destruct (IH Hs) as [d ->]. now apply uint_of_digit.
Qed.

(** A string of [w >= 1] digits is the [0w] print of the number it spells. *)
Lemma format0_int s :
  Py.all_digits s = true -> s <> EmptyString ->
  exists z, Py.int s = Ok z /\ 0 <= z /\ Py.format0 (String.length s) z = s.
Proof.
  intros H Hne. destruct (uint_of_digits s H) as [d Hd].
  exists (Z.of_N (N.of_uint d)). split; [now apply int_digits|].
  split; [lia|].
  pose proof (NilEmpty.sus _ _ Hd) as Hs.
  assert (Hnil : d <> Decimal.Nil) by (intros ->; simpl in Hs; congruence).
  unfold Py.format0.
  destruct (Z.of_N (N.of_uint d) <? 0) eqn:E; [apply Z.ltb_lt in E; lia|].
  rewrite Zabs2N.id, digits_of_eq, DecimalN.Unsigned.to_of.
  unfold Py.zfill. rewrite <- Hs at 1.
  rewrite !length_string_of_uint, zeros_unorm by assumption. exact Hs.
Qed.

End Printing.

(* ------------------------------------------------------------------ *)
(** ** [month_add] *)

Section MonthAdd.

Lemma split_digits s :
  Py.all_digits s = true -> Py.split "-"%char s = [s].
Proof.
  induction s as [|c s IH]; simpl; [reflexivity|].
  intros H. apply andb_true_iff in H as [Hc Hs].
  rewrite (is_digit_neq c "-"%char Hc eq_refl), (IH Hs). reflexivity.
Qed.

Lemma split_dash s t :
  Py.all_digits s = true ->
  Py.split "-"%char (s ++ String "-"%char t) = s :: Py.split "-"%char t.
Proof.
  induction s as [|c s IH]; simpl; [reflexivity|].
  intros H. apply andb_true_iff in H as [Hc Hs].
  rewrite (is_digit_neq c "-"%char Hc eq_refl), (IH Hs). reflexivity.
Qed.

(** The first loop ends with its guard false whenever the fuel covers
    [mm], and keeps [12 * y + mm]. *)
Lemma while_above_exit fuel : forall y mm,
  mm <= Z.of_nat fuel ->
  let '(y', mm') := while_above fuel y mm in
  12 * y' + mm' = 12 * y + mm /\ mm' <= 12 /\
  (mm <= 12 -> (y', mm') = (y, mm)) /\ (1 <= mm -> 1 <= mm').
Proof.
  induction fuel as [|f IH]; intros y mm Hf.
  - simpl. repeat split; auto; lia.
  - cbn [while_above]. destruct (12 <? mm) eqn:E.
    + apply Z.ltb_lt in E.
      specialize (IH (y + 1) (mm - 12) ltac:(lia)).
      destruct (while_above f (y + 1) (mm - 12)) as [y' mm'].
      destruct IH as (H1 & H2 & H3 & H4).
      repeat split; try lia.
    + apply Z.ltb_ge in E. repeat split; auto; lia.
Qed.

Lemma while_below_exit fuel : forall y mm,
  - mm < Z.of_nat fuel ->
  let '(y', mm') := while_below fuel y mm in
  12 * y' + mm' = 12 * y + mm /\ 1 <= mm' /\
  (1 <= mm -> (y', mm') = (y, mm)) /\ (mm <= 12 -> mm' <= 12).
Proof.
  induction fuel as [|f IH]; intros y mm Hf.
  - simpl. repeat split; auto; lia.
  - cbn [while_below]. destruct (mm <? 1) eqn:E.
    + apply Z.ltb_lt in E.
      specialize (IH (y - 1) (mm + 12) ltac:(lia)).
      destruct (while_below f (y - 1) (mm + 12)) as [y' mm'].
      destruct IH as (H1 & H2 & H3 & H4).
      repeat split; try lia.
    + apply Z.ltb_ge in E. repeat split; auto; lia.
Qed.

(** What the two loops of [month_add] leave in [y] and [mm]. *)
Lemma loops_normalise y mm :
  let '(y1, m1) := while_above (S (Z.abs_nat mm)) y mm in
  let '(y2, m2) := while_below (S (Z.abs_nat m1)) y1 m1 in
  12 * y2 + m2 = 12 * y + mm /\ 1 <= m2 <= 12.
Proof.
  pose proof (while_above_exit (S (Z.abs_nat mm)) y mm ltac:(lia)) as Ha.
  destruct (while_above (S (Z.abs_nat mm)) y mm) as [y1 m1].
  destruct Ha as (A1 & A2 & A3 & A4).
  pose proof (while_below_exit (S (Z.abs_nat m1)) y1 m1 ltac:(lia)) as Hb.
  destruct (while_below (S (Z.abs_nat m1)) y1 m1) as [y2 m2].
  destruct Hb as (B1 & B2 & B3 & B4). lia.
Qed.

(** [month_add] on a month spelled by two digit strings. *)
Lemma month_add_digits ys ms y mm n :
  Py.all_digits ys = true -> Py.all_digits ms = true ->
  Py.int ys = Ok y -> Py.int ms = Ok mm ->
  exists y' m',
    month_add (ys ++ String "-"%char ms) n
      = Ok (Py.format0 4 y' ++ "-" ++ Py.format0 2 m')
    /\ 12 * y' + m' = 12 * y + mm + n /\ 1 <= m' <= 12.
Proof.
  intros Hys Hms Hy Hm. unfold month_add.
  rewrite (split_dash _ _ Hys), (split_digits _ Hms), Hy, Hm.
  cbn [Py.bind].
  pose proof (loops_normalise y (mm + n)) as H.
  destruct (while_above (S (Z.abs_nat (mm + n))) y (mm + n)) as [y1 m1].
  destruct (while_below (S (Z.abs_nat m1)) y1 m1) as [y2 m2].
  exists y2, m2. split; [reflexivity | lia].
Qed.

Lemma is_month_inv m :
  is_month m = true ->
  exists ys ms y mm,
    m = ys ++ String "-"%char ms /\
    Py.all_digits ys = true /\ Py.all_digits ms = true /\
    Py.int ys = Ok y /\ Py.int ms = Ok mm /\
    0 <= y /\ 1 <= mm <= 12 /\
    Py.format0 4 y = ys /\ Py.format0 2 mm = ms.
Proof.
  destruct m as [|a [|b [|c [|d [|e s]]]]]; try discriminate.
  destruct (Ascii.eqb_spec e "-"%char) as [-> | Hne].
  2:{ destruct e as [[] [] [] [] [] [] [] []]; try discriminate;
      exfalso; now apply Hne. }
  destruct s as [|f [|g [|]]]; try discriminate.
  cbn [is_month]. intros H.
  apply andb_true_iff in H as [H Hrange].
  apply andb_true_iff in H as [H Hg].
  apply andb_true_iff in H as [H Hf].
  apply andb_true_iff in H as [H Hd].
  apply andb_true_iff in H as [H Hc].
  apply andb_true_iff in H as [Ha Hb].
  set (ys := String a (String b (String c (String d EmptyString)))).
  set (ms := String f (String g EmptyString)).
  assert (Hys : Py.all_digits ys = true)
    by (subst ys; cbn [Py.all_digits]; now rewrite Ha, Hb, Hc, Hd).
  assert (Hms : Py.all_digits ms = true)
    by (subst ms; cbn [Py.all_digits]; now rewrite Hf, Hg).
  destruct (format0_int ys Hys ltac:(discriminate)) as (y & Hy & Hy0 & Hfy).
  destruct (format0_int ms Hms ltac:(discriminate)) as (mm & Hm & Hm0 & Hfm).
  exists ys, ms, y, mm. fold ms in Hrange. rewrite Hm in Hrange.
  apply andb_true_iff in Hrange as [L1 L2].
  apply Z.leb_le in L1. apply Z.leb_le in L2.
  repeat split; auto.
Qed.

Lemma month_index_digits ys ms y mm :
  Py.all_digits ys = true -> Py.all_digits ms = true ->
  Py.int ys = Ok y -> Py.int ms = Ok mm ->
  month_index (ys ++ String "-"%char ms) = 12 * y + (mm - 1).
Proof.
  intros Hys Hms Hy Hm. unfold month_index.
  now rewrite (split_dash _ _ Hys), (split_digits _ Hms), Hy, Hm.
Qed.

(** Adding months moves the month index by that amount, over year
    boundaries in both directions, as long as the year stays non-negative. *)
Lemma month_add_index m n :
  is_month m = true -> 0 <= month_index m + n ->
  exists m', month_add m n = Ok m' /\ month_index m' = month_index m + n.
Proof.
  intros Hm Hn.
  destruct (is_month_inv m Hm)
    as (ys & ms & y & mm & -> & Hys & Hms & Hy & Hmm & Hy0 & Hr & Fy & Fm).
  rewrite (month_index_digits _ _ _ _ Hys Hms Hy Hmm) in *.
  destruct (month_add_digits ys ms y mm n Hys Hms Hy Hmm)
    as (y1 & m1 & E1 & I1 & R1).
  assert (Hy1 : 0 <= y1) by lia.
  eexists; split; [exact E1|].
  change (Py.format0 4 y1 ++ "-" ++ Py.format0 2 m1)
    with (Py.format0 4 y1 ++ String "-"%char (Py.format0 2 m1)).
  rewrite (month_index_digits _ _ y1 m1); [lia | | | |].
  - now apply format0_digits.
  - apply format0_digits; lia.
  - now apply int_format0.
  - apply int_format0; lia.
Qed.

(** C7 (as amended): for every month string [m] in YYYY-MM form and every
    integer [n], positive, zero or negative, such that [m] plus [n] months
    does not fall before year 0, [month_add(month_add(m, n), -n)] returns
    [m]. *)
Theorem month_add_roundtrip m n :
  is_month m = true -> 0 <= month_index m + n ->
  month_roundtrip m n = Ok m.
Proof.
  intros Hm Hn.
  destruct (is_month_inv m Hm)
    as (ys & ms & y & mm & -> & Hys & Hms & Hy & Hmm & Hy0 & Hr & Fy & Fm).
  rewrite (month_index_digits _ _ _ _ Hys Hms Hy Hmm) in Hn.
  destruct (month_add_digits ys ms y mm n Hys Hms Hy Hmm)
    as (y1 & m1 & E1 & I1 & R1).
  assert (Hy1 : 0 <= y1) by lia.
  unfold month_roundtrip. rewrite E1. cbn [Py.bind].
  change (Py.format0 4 y1 ++ "-" ++ Py.format0 2 m1)
    with (Py.format0 4 y1 ++ String "-"%char (Py.format0 2 m1)).
  destruct (month_add_digits (Py.format0 4 y1) (Py.format0 2 m1) y1 m1 (- n))
    as (y2 & m2 & E2 & I2 & R2).
  - now apply format0_digits.
  - apply format0_digits; lia.
  - now apply int_format0.
  - apply int_format0; lia.
  - rewrite E2.
    assert (y2 = y) by lia. assert (m2 = mm) by lia. subst y2 m2.
    now rewrite Fy, Fm.
Qed.

Lemma month_add_roundtrip_witness :
  is_month "2024-01" = true /\ 0 <= month_index "2024-01" + (-14) /\
  month_roundtrip "2024-01" (-14) = Ok "2024-01".
Proof.
  split; [reflexivity|]. split; [vm_compute; discriminate|].
  apply month_add_roundtrip; [reflexivity | vm_compute; discriminate].
Defined.

(** C7 (as stated) fails: going back past year 0 prints a signed year,
    which [month_add] can no longer split into two fields. *)
Lemma month_add_roundtrip_fails :
  is_month "2024-03" = true /\
  month_add "2024-03" (-24291) = Ok "-001-12" /\
  month_roundtrip "2024-03" (-24291) = Err ValueError /\
  month_roundtrip "2024-03" (-24291) <> Ok "2024-03".
Proof.
  repeat split; try (vm_compute; reflexivity).
  intros H. vm_compute in H. discriminate H.
Qed.

End MonthAdd.

(* ------------------------------------------------------------------ *)
(** ** Strings: [in], slices and [replace] *)

Section Strings.

Lemma prefix_occurs x s : String.prefix x s = true -> exists b, s = x ++ b.
Proof.
  revert s. induction x as [|c x IH]; intros s H.
  - now exists s.
  - destruct s as [|c' s]; simpl in H; [discriminate|].
    destruct (Ascii.ascii_dec c c') as [-> | Hne]; [|discriminate].
    destruct (IH s H) as [b ->]. now exists b.
Qed.

Lemma prefix_app x b : String.prefix x (x ++ b) = true.
Proof.
  induction x as [|c x IH]; simpl; [now destruct b|].
  destruct (Ascii.ascii_dec c c); [exact IH | congruence].
Qed.

Lemma contains_prefix x s : String.prefix x s = true -> Py.contains x s = true.
Proof. intros H. destruct s; cbn [Py.contains]; now rewrite H. Qed.

(** [contains] decides [occurs_in]. *)
Lemma contains_spec x s : Py.contains x s = true <-> occurs_in x s.
Proof.
  split.
  - induction s as [|c s IH]; cbn [Py.contains]; intros H.
    + rewrite orb_false_r in H. apply prefix_occurs in H as [b ->].
      now exists EmptyString, b.
    + apply orb_true_iff in H as [H | H].
      * apply prefix_occurs in H as [b ->]. now exists EmptyString, b.
      * destruct (IH H) as (a & b & ->). now exists (String c a), b.
  - intros (a & b & ->). induction a as [|c a IH].
    + change (EmptyString ++ x ++ b) with (x ++ b).
      apply contains_prefix, prefix_app.
    + cbn [String.append Py.contains]. rewrite IH. apply orb_true_r.
Qed.

Lemma contains_false x s : Py.contains x s = false <-> ~ occurs_in x s.
Proof.
  rewrite <- contains_spec. destruct (Py.contains x s); split; congruence.
Qed.

(** [s[4:]] is [s] without its first four characters (or without all of
    them when there are fewer). *)
Lemma drop_spec n s :
  exists pre, s = pre ++ Py.drop n s /\
              String.length pre = Nat.min n (String.length s).
Proof.
  revert s. induction n as [|n IH]; intros s.
  - now exists EmptyString.
  - destruct s as [|c s]; [now exists EmptyString|].
    destruct (IH s) as (pre & E & L). exists (String c pre). simpl.
    split; [now rewrite <- E | now rewrite L].
Qed.

Lemma string_length_app s t :
  String.length (s ++ t) = (String.length s + String.length t)%nat.
Proof. induction s as [|c s IH]; simpl; [reflexivity | now rewrite IH]. Qed.

Lemma replace_from_length skip old s :
  (String.length (Py.replace_from skip old "" s)
   <= String.length s - Nat.min skip (String.length s))%nat.
Proof.
  revert skip. induction s as [|c s IH]; intros skip; [simpl; lia|].
  cbn [Py.replace_from]. destruct skip as [|k].
  - destruct (String.prefix old (String c s)).
    + cbn [String.append]. specialize (IH (String.length old - 1)%nat).
      simpl. lia.
    + specialize (IH 0%nat). simpl in *. lia.
  - specialize (IH k). simpl. lia.
Qed.

Lemma replace_from_fixed old s :
  old <> EmptyString ->
  (Py.replace_from 0 old "" s = s <-> Py.contains old s = false).
Proof.
  intros Hold. induction s as [|c s IH].
  - simpl. rewrite orb_false_r. destruct old; [congruence|]. simpl. tauto.
  - cbn [Py.replace_from Py.contains].
    destruct (String.prefix old (String c s)) eqn:P.
    + split; [|discriminate]. intros H. exfalso.
      pose proof (replace_from_length (String.length old - 1) old s) as L.
      cbn [String.append] in H. rewrite H in L. simpl in L. lia.
    + rewrite orb_false_l, <- IH. split; [now intros [= ->] | now intros ->].
Qed.

End Strings.

(* ------------------------------------------------------------------ *)
(** ** Identifier normalisation *)

(** C8 (as amended): removing a marker with [replace] is a pure function of
    the raw string and the marker, and it returns the raw string unchanged
    exactly when the marker occurs nowhere in it; a marker that is not at
    the start is removed as well. *)
Theorem strip_prefix_unchanged raw prefix :
  prefix <> EmptyString ->
  (strip_prefix raw prefix = raw <-> ~ occurs_in prefix raw).
Proof.
  intros H. rewrite <- contains_false. unfold strip_prefix, Py.replace.
  destruct prefix as [|c p]; [congruence|]. now apply replace_from_fixed.
Qed.

Lemma strip_prefix_unchanged_witness :
  "ctr_" <> EmptyString /\
  (strip_prefix "1-5C13O2" "ctr_" = "1-5C13O2" <-> ~ occurs_in "ctr_" "1-5C13O2").
Proof.
  split; [discriminate|]. apply strip_prefix_unchanged. discriminate.
Defined.

(** The slice of [rootContract] removes four characters whatever they are. *)
Lemma strip4_length c :
  String.length (strip4 c) = (String.length c - 4)%nat.
Proof.
  unfold strip4. destruct (drop_spec 4 c) as (pre & E & L).
  apply (f_equal String.length) in E. rewrite string_length_app in E. lia.
Qed.

(** C8 (as stated) fails: an identifier that does not start with the
    marker is changed when the marker occurs further on, and the slice of
    [rootContract] shortens an identifier that has no marker at all. *)
Lemma strip_prefix_not_passthrough :
  String.prefix "ctr_" "M-ctr_7" = false /\
  strip_prefix "M-ctr_7" "ctr_" = "M-7" /\
  strip_prefix "M-ctr_7" "ctr_" <> "M-ctr_7" /\
  String.prefix "ctr_" "1-5C13O2" = false /\
  strip4 "1-5C13O2" = "13O2" /\
  strip4 "1-5C13O2" <> "1-5C13O2".
Proof. repeat split; try reflexivity; discriminate. Qed.

(* ------------------------------------------------------------------ *)
(** ** Hierarchy resolver: [rootContract] and [groupPath] *)

Section Hierarchy.

(** More stack never changes an answer of [groupPath]. *)
Lemma groupPath_mono groups d : forall gid names,
  groupPath d gid groups = Ok names ->
  forall d', (d <= d')%nat -> groupPath d' gid groups = Ok names.
Proof.
  induction d as [|d IH]; intros gid names H d' Hd; [discriminate|].
  destruct d' as [|d']; [lia|].
  cbn [groupPath] in *.
  destruct (find_group gid groups) as [g|]; [|exact H].
  destruct (parentGroupId g) as [p|]; [|exact H].
  destruct (groupPath d p groups) as [parent|e] eqn:E; [|discriminate].
  rewrite (IH _ _ E d') by lia. exact H.
Qed.

(** C9: when the parent references found in the group list are
    well founded (an acyclic forest of finite depth), [groupPath] returns
    for every group id once the stack is deep enough; the path of a group
    with a parent is the parent's path followed by the group's name, the
    path of a group without parent is its name alone, and an id that is not
    in the list has the empty path. *)
Theorem groupPath_terminates groups :
  well_founded (parent_edge groups) ->
  forall gid, exists names d,
    (forall depth, (d <= depth)%nat -> groupPath depth gid groups = Ok names) /\
    match find_group gid groups with
    | None => names = []
    | Some g =>
        match parentGroupId g with
        | None => names = [groupName g]
        | Some p =>
            exists parent dp,
              (forall depth, (dp <= depth)%nat ->
                 groupPath depth p groups = Ok parent) /\
              names = (parent ++ [groupName g])%list
        end
    end.
Proof.
  intros W gid. induction (W gid) as [gid _ IH].
  destruct (find_group gid groups) as [g|] eqn:F.
  - destruct (parentGroupId g) as [p|] eqn:P.
    + destruct (IH p) as (parent & dp & Hp & _); [now exists g|].
      exists (parent ++ [groupName g])%list, (S dp). split.
      * intros [|depth] Hd; [lia|]. cbn [groupPath].
        rewrite F, P, (Hp depth) by lia. reflexivity.
      * now exists parent, dp.
    + exists [groupName g], 1%nat. split; [|reflexivity].
      intros [|depth] Hd; [lia|]. cbn [groupPath]. now rewrite F, P.
  - exists [], 1%nat. split; [|reflexivity].
    intros [|depth] Hd; [lia|]. cbn [groupPath]. now rewrite F.
Qed.

(** A rank that decreases from every group to its parent makes the parent
    references well founded. *)
Lemma ranked_well_founded groups (rank : string -> nat) :
  (forall p gid, parent_edge groups p gid -> (rank p < rank gid)%nat) ->
  well_founded (parent_edge groups).
Proof.
  intros H. apply (Wf_nat.well_founded_lt_compat _ rank). exact H.
Qed.

Lemma scenario_groups_well_founded :
  well_founded (parent_edge [Scenario.acme; Scenario.team]).
Proof.
  apply (ranked_well_founded _
           (fun gid => if String.eqb gid "grp_2" then 1%nat else 0%nat)).
  intros p gid (g & F & P). unfold find_group in F. cbn [find] in F.
  cbn [groupId Scenario.acme Scenario.team] in F.
  destruct (String.eqb_spec "grp_1" gid) as [<- | _].
  - injection F as <-. discriminate P.
  - destruct (String.eqb_spec "grp_2" gid) as [<- | _]; [|discriminate F].
    injection F as <-. injection P as <-. cbn. lia.
Defined.

Lemma groupPath_terminates_witness :
  exists names d,
    (forall depth, (d <= depth)%nat ->
       groupPath depth "grp_2" [Scenario.acme; Scenario.team] = Ok names) /\
    exists parent dp,
      (forall depth, (dp <= depth)%nat ->
         groupPath depth "grp_1" [Scenario.acme; Scenario.team] = Ok parent) /\
      names = (parent ++ ["Team"])%list.
Proof.
  exact (groupPath_terminates [Scenario.acme; Scenario.team]
           scenario_groups_well_founded "grp_2").
Defined.

Example groupPath_scenario :
  groupPath 2 "grp_2" [Scenario.acme; Scenario.team] = Ok ["1-ACME"; "Team"].
Proof. reflexivity. Qed.

(** Without the hypothesis the recursion does not end: two groups that name
    each other as parent exhaust any stack. *)
Lemma groupPath_cycle depth :
  let a := {| groupId := "grp_1"; groupName := "A"; parentGroupId := Some "grp_2";
              contractIds := [] |} in
  let b := {| groupId := "grp_2"; groupName := "B"; parentGroupId := Some "grp_1";
              contractIds := [] |} in
  groupPath depth "grp_1" [a; b] = Err RecursionError /\
  groupPath depth "grp_2" [a; b] = Err RecursionError.
Proof.
  induction depth as [|d [IH1 IH2]]; [split; reflexivity|].
  cbn [groupPath find_group find groupId parentGroupId String.eqb Ascii.eqb
       Bool.eqb] in *.
  split.
  - cbn in IH2 |- *. now rewrite IH2.
  - cbn in IH1 |- *. now rewrite IH1.
Qed.

(** The first element of a list that passes a test. *)
Lemma find_first {A} (f : A -> bool) l :
  match find f l with
  | Some x =>
      exists before after,
        l = (before ++ x :: after)%list /\ f x = true /\
        Forall (fun y => f y = false) before
  | None => Forall (fun y => f y = false) l
  end.
Proof.
  induction l as [|a l IH]; cbn [find]; [constructor|].
  destruct (f a) eqn:E.
  - exists [], l. repeat split; auto.
  - destruct (find f l) as [x|].
    + destruct IH as (before & after & -> & Hx & Hb).
      exists (a :: before), after. repeat split; auto.
    + constructor; auto.
Qed.

(** C10: a group whose [parentGroupId] matches no group of the list is
    resolved from its own contracts: the result is the first contract id
    whose text after the first four characters occurs in the group's name,
    and [None] when there is no such contract. *)
Theorem rootContract_unmatched_parent depth g groups p :
  parentGroupId g = Some p ->
  find_group p groups = None ->
  exists r,
    rootContract (S depth) g groups = Ok r /\
    match r with
    | Some c =>
        exists before after,
          contractIds g = (before ++ c :: after)%list /\
          occurs_in (strip4 c) (groupName g) /\
          Forall (fun c' => ~ occurs_in (strip4 c') (groupName g)) before
    | None =>
        Forall (fun c' => ~ occurs_in (strip4 c') (groupName g)) (contractIds g)
    end.
Proof.
  intros P F. cbn [rootContract]. rewrite P, F.
  eexists; split; [reflexivity|].
  pose proof (find_first
                (fun c => Py.contains (Py.drop 4 c) (groupName g))
                (contractIds g)) as H.
  destruct (find _ (contractIds g)) as [c|].
  - destruct H as (before & after & E & Hc & Hb).
    exists before, after. split; [exact E|]. split.
    + now apply contains_spec.
    + eapply Forall_impl; [|exact Hb]. intros c'. apply contains_false.
  - eapply Forall_impl; [|exact H]. intros c'. apply contains_false.
Qed.

Lemma rootContract_unmatched_parent_witness :
  exists r,
    rootContract 1 Scenario.shop [Scenario.acme; Scenario.shop] = Ok r /\
    match r with
    | Some c =>
        exists before after,
          contractIds Scenario.shop = (before ++ c :: after)%list /\
          occurs_in (strip4 c) (groupName Scenario.shop) /\
          Forall (fun c' => ~ occurs_in (strip4 c') (groupName Scenario.shop))
            before
    | None =>
        Forall (fun c' => ~ occurs_in (strip4 c') (groupName Scenario.shop))
          (contractIds Scenario.shop)
    end.
Proof.
  apply (rootContract_unmatched_parent 0 Scenario.shop
           [Scenario.acme; Scenario.shop] "grp_404"); reflexivity.
Defined.

Example rootContract_shop :
  rootContract 1 Scenario.shop [Scenario.acme; Scenario.shop]
  = Ok (Some "ctr_1-5C13O2").
Proof. reflexivity. Qed.

End Hierarchy.

(* ------------------------------------------------------------------ *)
(** ** Dictionaries *)

Section DictFacts.

Context {K V : Type} (eqb : K -> K -> bool).
Hypothesis eqb_eq : forall a b, eqb a b = true <-> a = b.

Lemma eqb_neq_false a b : a <> b -> eqb a b = false.
Proof.
  intros H. destruct (eqb a b) eqn:E; [|reflexivity].
  apply eqb_eq in E. contradiction.
Qed.

Lemma dict_keys_set k (v : V) d :
  Dict.keys (Dict.set eqb k v d) = Dict.keys d \/
  (~ In k (Dict.keys d) /\
   Dict.keys (Dict.set eqb k v d) = (Dict.keys d ++ [k])%list).
Proof.
  unfold Dict.keys.
  induction d as [|[k' v'] d IH]; cbn [Dict.set map fst].
  - right. split; [tauto | reflexivity].
  - destruct (eqb k k') eqn:E; cbn [map fst].
    + left. reflexivity.
    + destruct IH as [IH | [Hn IH]]; rewrite IH.
      * left. reflexivity.
      * right. split; [|reflexivity].
        intros [-> | H]; [|contradiction].
        assert (eqb k k = true) by now apply eqb_eq. congruence.
Qed.

Lemma dict_set_nodup k (v : V) d :
  NoDup (Dict.keys d) -> NoDup (Dict.keys (Dict.set eqb k v d)).
Proof.
  intros H. destruct (dict_keys_set k v d) as [-> | [Hn ->]]; [exact H|].
  apply NoDup_app; [exact H | repeat constructor; auto |].
  intros x Hx [<- | []]. contradiction.
Qed.

Lemma dict_get_in k (v : V) d : Dict.get eqb k d = Some v -> In (k, v) d.
Proof.
  induction d as [|[k' v'] d IH]; cbn [Dict.get]; [discriminate|].
  destruct (eqb k k') eqn:E.
  - intros [= ->]. apply eqb_eq in E as ->. now left.
  - intros H. right. auto.
Qed.

Lemma dict_in_get k (v : V) d :
  NoDup (Dict.keys d) -> In (k, v) d -> Dict.get eqb k d = Some v.
Proof.
  induction d as [|[k' v'] d IH]; cbn [Dict.get Dict.keys map fst];
    [intros _ []|].
  intros N [[= -> ->] | H].
  - assert (eqb k k = true) as -> by now apply eqb_eq. reflexivity.
  - inversion_clear N as [|? ? Hn N'].
    rewrite eqb_neq_false; [now apply IH|].
    intros ->. apply Hn. unfold Dict.keys. now apply (in_map fst _ (k', v)).
Qed.

End DictFacts.

Lemma cpcodesIndex_nodup cpcodes : NoDup (Dict.keys (cpcodesIndex cpcodes)).
Proof.
  unfold cpcodesIndex.
  assert (G : forall m, NoDup (Dict.keys m) ->
            NoDup (Dict.keys
                     (fold_left
                        (fun m cpcode => Dict.set Z.eqb (cpcodeId cpcode) cpcode m)
                        cpcodes m))).
  { induction cpcodes as [|c l IH]; intros m Hm; cbn [fold_left]; [exact Hm|].
    apply IH, (dict_set_nodup Z.eqb Z.eqb_eq), Hm. }
  apply G. constructor.
Qed.

(* ------------------------------------------------------------------ *)
(** ** Rows of the report *)

Section Rows.

Lemma first_level_spec g name :
  In name (first_level g) <->
  List.length (path g) = 2%nat /\ nth_error (path g) 1 = Some name.
Proof.
  unfold first_level. destruct (path g) as [|a [|b [|c l]]]; cbn; split;
    try tauto; try (intros [H _]; discriminate H).
  - intros [<- | []]. auto.
  - intros [_ [= <-]]. auto.
Qed.

Lemma firstLevelLoop_spec gm gids : forall acc names,
  firstLevelLoop gm gids acc = Ok names ->
  exists groups,
    Forall2 (fun gid g => Dict.get Z.eqb gid gm = Some g) gids groups /\
    names = (acc ++ flat_map first_level groups)%list.
Proof.
  induction gids as [|gid rest IH]; intros acc names H; cbn [firstLevelLoop] in H.
  - injection H as <-. exists []. split; [constructor|].
    cbn [flat_map]. now rewrite List.app_nil_r.
  - unfold Dict.getitem in H.
    destruct (Dict.get Z.eqb gid gm) as [g|] eqn:G; [|discriminate].
    cbn [Py.bind] in H.
    assert (exists acc', firstLevelLoop gm rest acc' = Ok names /\
                         acc' = (acc ++ first_level g)%list) as (acc' & H' & ->).
    { unfold first_level.
      destruct (List.length (path g) =? 2)%nat eqn:L.
      - destruct (path g) as [|a [|b [|c l]]]; try discriminate L.
        cbn in H |- *. eauto.
      - rewrite List.app_nil_r. eauto. }
    destruct (IH _ _ H') as (groups & F & ->).
    exists (g :: groups). split; [now constructor|].
    cbn [flat_map]. now rewrite List.app_assoc.
Qed.

Lemma usageRow_inv m st row :
  usageRow m st = Ok row ->
  row_cpcode row = st_cpcode st /\
  row_hits row = Present (st_hits st) /\
  row_gb row = Present (st_gb st) /\
  row_repGroups row = repgroupnames m (st_cpcode st) /\
  catalog_contract m row /\ attributed m row.
Proof.
  unfold usageRow, Dict.getitem. intros H.
  destruct (Dict.get Z.eqb (st_cpcode st) (cpcodeMap m)) as [cp|] eqn:C;
    [|discriminate].
  destruct (Dict.get Z.eqb (st_cpcode st) (mapCpcodeAccgroup m)) as [gids|] eqn:G;
    [|discriminate].
  cbn [Py.bind] in H.
  destruct (firstLevelLoop (groupmap m) gids []) as [names|] eqn:F;
    [|discriminate].
  injection H as <-. cbn.
  destruct (firstLevelLoop_spec _ _ _ _ F) as (groups & F2 & ->).
  repeat split.
  - now exists cp.
  - now exists gids, groups.
Qed.

Lemma noTrafficRow_some m id cp row :
  noTrafficRow m id cp = Ok (Some row) ->
  row_cpcode row = id /\ eligible cp = true /\
  row_hits row = Missing /\ row_gb row = Missing /\
  row_repGroups row = repgroupnames m id /\
  row_contract row = strip_prefix (accessGroup_contractId cp) "ctr_" /\
  attributed m row.
Proof.
  unfold noTrafficRow, Dict.getitem, eligible. intros H.
  destruct (validContract cp); [|discriminate].
  destruct (validProduct cp); [|discriminate].
  cbn [negb] in H.
  destruct (Dict.get Z.eqb id (mapCpcodeAccgroup m)) as [gids|] eqn:G;
    [|discriminate].
  cbn [Py.bind] in H.
  destruct (firstLevelLoop (groupmap m) gids []) as [names|] eqn:F;
    [|discriminate].
  injection H as <-. cbn.
  destruct (firstLevelLoop_spec _ _ _ _ F) as (groups & F2 & ->).
  repeat split. now exists gids, groups.
Qed.

Lemma noTrafficRow_none m id cp :
  noTrafficRow m id cp = Ok None -> eligible cp = false.
Proof.
  unfold noTrafficRow, Dict.getitem, eligible. intros H.
  destruct (validContract cp); [|reflexivity].
  destruct (validProduct cp); [|reflexivity].
  cbn [negb] in H.
  destruct (Dict.get Z.eqb id (mapCpcodeAccgroup m)); [|discriminate].
  cbn [Py.bind] in H.
  destruct (firstLevelLoop (groupmap m) _ []); discriminate.
Qed.

(** The loop over the statistics of one contract appends one row per
    statistic. *)
Lemma statsLoop_rows m cpstats : forall traffic var traffic' var',
  statsLoop m cpstats traffic var = Ok (traffic', var') ->
  exists rows,
    traffic' = (traffic ++ rows)%list /\
    Forall2 (fun st row => usageRow m st = Ok row) cpstats rows.
Proof.
  induction cpstats as [|st rest IH]; intros traffic var traffic' var' H;
    cbn [statsLoop] in H.
  - injection H as <- <-. exists []. split; [now rewrite List.app_nil_r | constructor].
  - destruct (usageRow m st) as [row|] eqn:R; [|discriminate].
    cbn [Py.bind] in H. destruct (IH _ _ _ _ H) as (rows & -> & F).
    exists (row :: rows). split; [now rewrite <- List.app_assoc | now constructor].
Qed.

Lemma Forall2_map_app {A B C} (R : B -> C -> Prop) (f : A -> B) l1 l2 r1 r2 :
  Forall2 (fun a c => R (f a) c) l1 r1 -> Forall2 R l2 r2 ->
  Forall2 R (map f l1 ++ l2) (r1 ++ r2).
Proof.
  intros H1 H2. apply Forall2_app; [|exact H2].
  induction H1; cbn; constructor; auto.
Qed.

(** The loop over the contracts appends one row per statistic of the
    usage feed, whatever it records in [addedCpCodes]. *)
Lemma usageLoop_rows api m product month keys :
  forall traffic added var traffic' added' var',
  usageLoop api m product month keys traffic added var
    = Ok (traffic', added', var') ->
  exists feed rows,
    usageFeed api product month keys = Ok feed /\
    traffic' = (traffic ++ rows)%list /\
    Forall2 (fun st row => usageRow m (snd st) = Ok row) feed rows.
Proof.
  induction keys as [|contract rest IH];
    intros traffic added var traffic' added' var' H;
    cbn [usageLoop usageFeed] in *.
  - injection H as <- <- <-. exists [], []. rewrite List.app_nil_r. repeat split.
    constructor.
  - destruct (getCpStatistics api (Py.replace contract "ctr_" "") product month)
      as [cpstats|]; [|discriminate].
    cbn [Py.bind] in *.
    destruct (statsLoop m cpstats traffic var) as [[t1 v1]|] eqn:S; [|discriminate].
    cbn [Py.bind] in H.
    destruct (set_add v1 added) as [a1|]; [|discriminate].
    cbn [Py.bind] in H.
    destruct (statsLoop_rows _ _ _ _ _ _ S) as (rows1 & -> & F1).
    destruct (IH _ _ _ _ _ _ H) as (feed & rows & -> & -> & F).
    cbn [Py.bind].
    exists (map (pair contract) cpstats ++ feed)%list, (rows1 ++ rows)%list.
    split; [reflexivity|]. split; [now rewrite List.app_assoc|].
    apply (Forall2_map_app (fun st row => usageRow m (snd st) = Ok row)
             (pair contract)); assumption.
Qed.

End Rows.

(* ------------------------------------------------------------------ *)
(** ** The run as a whole *)

Section Run.

Lemma set_mem_cons k x s : set_mem k (x :: s) = Z.eqb k x || set_mem k s.
Proof. reflexivity. Qed.

(** The no-traffic branch appends one row for every pending entry of the
    catalog, in catalog order. *)
Lemma noTrafficLoop_rows m items :
  NoDup (map fst items) ->
  forall traffic added out,
  noTrafficLoop m items traffic added = Ok out ->
  exists extra,
    out = (traffic ++ extra)%list /\
    Forall2 (fun item row => noTrafficRow m (fst item) (snd item) = Ok (Some row))
      (filter (pending added) items) extra.
Proof.
  induction items as [|[id cp] rest IH]; intros N traffic added out H;
    cbn [noTrafficLoop] in H.
  - injection H as <-. exists []. split; [now rewrite List.app_nil_r | constructor].
  - cbn [map fst] in N. inversion_clear N as [|? ? Hid N'].
    assert (Hrest : forall added',
              filter (pending (id :: added')) rest = filter (pending added') rest).
    { intros added'. apply filter_ext_in. intros [id' cp'] Hin.
      unfold pending. cbn [fst snd]. rewrite set_mem_cons.
      destruct (Z.eqb_spec id' id) as [-> | _]; [|reflexivity].
      exfalso. apply Hid. now apply (in_map fst _ (id, cp')). }
    cbn [filter]. unfold pending at 1. cbn [fst snd].
    destruct (set_mem id added) eqn:M; cbn [negb andb].
    + destruct (IH N' _ _ _ H) as (extra & -> & F).
      exists extra. split; [reflexivity|]. now rewrite <- Hrest.
    + destruct (noTrafficRow m id cp) as [[row|]|] eqn:R; [| |discriminate];
        cbn [Py.bind] in H.
      * destruct (noTrafficRow_some _ _ _ _ R) as (_ & -> & _).
        destruct (IH N' _ _ _ H) as (extra & -> & F).
        exists (row :: extra). split; [now rewrite <- List.app_assoc|].
        constructor; [exact R | now rewrite <- Hrest].
      * rewrite (noTrafficRow_none _ _ _ R).
        destruct (IH N' _ _ _ H) as (extra & -> & F). now exists extra.
Qed.

Lemma buildMaps_cpcodeMap depth api m var :
  buildMaps depth api = Ok (m, var) ->
  cpcodeMap m = cpcodesIndex (cprg_cpcodes api).
Proof.
  unfold buildMaps.
  destruct (contractsIndex (papi_contracts api) [] Unbound) as [cm v0].
  destruct (listAccountGroups depth api) as [ags|]; [|discriminate].
  cbn [Py.bind].
  destruct (groupsLoop api ags [] [] v0) as [[[gm acc] v1]|]; [|discriminate].
  cbn [Py.bind]. now intros [= <- _].
Qed.

(** A successful run: the maps, the rows of the usage loop (one per
    statistic of the feed), then the rows of the no-traffic branch (one per
    pending catalog entry, none when [includeNoTraffic] is set). *)
Lemma run_rows depth api product month inc traffic :
  cptrafficPerMonth depth api product month inc = Ok traffic ->
  exists m var rows added feed extra,
    buildMaps depth api = Ok (m, var) /\
    usagePhase api m var product month = Ok (rows, added) /\
    usageFeed api product month (Dict.keys (contractMap m)) = Ok feed /\
    Forall2 (fun st row => usageRow m (snd st) = Ok row) feed rows /\
    traffic = (rows ++ extra)%list /\
    Forall2 (fun item row => noTrafficRow m (fst item) (snd item) = Ok (Some row))
      (if inc then [] else filter (pending added) (cpcodeMap m)) extra.
Proof.
  unfold cptrafficPerMonth. intros H.
  destruct (buildMaps depth api) as [[m var]|] eqn:B; [|discriminate].
  cbn [Py.bind] in H.
  destruct (usagePhase api m var product month) as [[rows added]|] eqn:U;
    [|discriminate].
  cbn [Py.bind] in H.
  pose proof U as U'. unfold usagePhase in U'.
  destruct (usageLoop api m product month (Dict.keys (contractMap m)) [] [] var)
    as [[[t a] v]|] eqn:L; [|discriminate].
  cbn [Py.bind] in U'. injection U' as -> ->.
  destruct (usageLoop_rows _ _ _ _ _ _ _ _ _ _ _ L) as (feed & rows' & F & E & R).
  cbn [app] in E. subst rows'.
  destruct inc; cbn [negb] in H.
  - injection H as <-. exists m, var, rows, added, feed, [].
    rewrite List.app_nil_r. repeat split; auto.
  - assert (N : NoDup (map fst (cpcodeMap m))).
    { rewrite (buildMaps_cpcodeMap _ _ _ _ B). apply cpcodesIndex_nodup. }
    destruct (noTrafficLoop_rows m (cpcodeMap m) N _ _ _ H) as (extra & -> & X).
    exists m, var, rows, added, feed, extra. repeat split; auto.
Qed.

End Run.

(* ------------------------------------------------------------------ *)
(** ** Counting the rows of a CP code *)

Section Counting.

Lemma filter_length_Forall2 {A B} (R : A -> B -> Prop) f g l r :
  Forall2 R l r -> (forall a b, R a b -> f a = g b) ->
  List.length (filter f l) = List.length (filter g r).
Proof.
  intros F H. induction F as [|a b l r Hab F IH]; [reflexivity|].
  cbn [filter]. rewrite (H _ _ Hab). destruct (g b); cbn [List.length]; auto.
Qed.

Lemma Forall2_in_r {A B} (R : A -> B -> Prop) l r b :
  Forall2 R l r -> In b r -> exists a, In a l /\ R a b.
Proof.
  intros F. induction F as [|a' b' l r Hab F IH]; intros Hin; [destruct Hin|].
  destruct Hin as [<- | Hin].
  - exists a'. split; [now left | exact Hab].
  - destruct (IH Hin) as (a & Ha & Hr). exists a. split; [now right | exact Hr].
Qed.

Lemma filter_none {A} (f : A -> bool) l :
  (forall a, In a l -> f a = false) -> filter f l = [].
Proof.
  induction l as [|a l IH]; intros H; [reflexivity|].
  cbn [filter]. rewrite (H a) by now left. apply IH. intros. apply H. now right.
Qed.

Lemma nodup_keys_filter {V} (f : Z * V -> bool) l :
  NoDup (map fst l) -> NoDup (map fst (filter f l)).
Proof.
  induction l as [|a l IH]; cbn [map filter]; intros N; [constructor|].
  inversion_clear N as [|? ? Hn N'].
  destruct (f a); [|auto]. cbn [map]. constructor; [|auto].
  intros Hin. apply Hn. apply in_map_iff in Hin as (x & E & Hx).
  apply filter_In in Hx as [Hx _]. apply in_map_iff. eauto.
Qed.

(** In a dictionary a key heads at most one entry. *)
Lemma key_count {V} (l : list (Z * V)) e :
  NoDup (map fst l) ->
  (List.length (filter (fun it => Z.eqb (fst it) e) l) <= 1)%nat /\
  (List.length (filter (fun it => Z.eqb (fst it) e) l) = 1%nat <->
   exists v, In (e, v) l).
Proof.
  induction l as [|[k v] l IH]; cbn [map fst filter]; intros N.
  - cbn. split; [lia|]. split; [discriminate | intros [? []]].
  - inversion_clear N as [|? ? Hn N']. destruct (IH N') as [IH1 IH2].
    destruct (Z.eqb_spec k e) as [-> | Hne].
    + rewrite filter_none.
      * cbn. split; [lia|]. split; [|reflexivity]. intros _. exists v. now left.
      * intros [k' v'] Hin. cbn [fst]. apply Z.eqb_neq. intros ->.
        apply Hn. now apply (in_map fst _ (e, v')).
    + split; [exact IH1|]. rewrite IH2. split.
      * intros [v' H]. exists v'. now right.
      * intros [v' [[= -> _] | H]]; [contradiction | now exists v'].
Qed.

End Counting.

(* ------------------------------------------------------------------ *)
(** ** Properties of [cptrafficPerMonth] *)

Section Report.

(** C4: every row written for a usage statistic carries the contract the
    catalog gives for its CP code ([accessGroup.contractId], normalised),
    whatever contract the statistic was fetched for. *)
Theorem usage_row_contract depth api product month inc traffic :
  cptrafficPerMonth depth api product month inc = Ok traffic ->
  exists m var feed rows extra,
    buildMaps depth api = Ok (m, var) /\
    usageFeed api product month (Dict.keys (contractMap m)) = Ok feed /\
    traffic = (rows ++ extra)%list /\
    Forall2 (fun st row =>
               row_cpcode row = st_cpcode (snd st) /\
               row_hits row = Present (st_hits (snd st)) /\
               row_gb row = Present (st_gb (snd st)) /\
               catalog_contract m row)
      feed rows.
Proof.
  intros H.
  destruct (run_rows _ _ _ _ _ _ H)
    as (m & var & rows & added & feed & extra & B & U & F & R & E & X).
  exists m, var, feed, rows, extra. repeat split; auto.
  eapply Forall2_impl; [|exact R].
  intros st row Hr. apply usageRow_inv in Hr. tauto.
Qed.

Lemma usage_row_contract_witness :
  exists m var feed rows extra,
    buildMaps 10 Scenario.two_contracts = Ok (m, var) /\
    usageFeed Scenario.two_contracts "X" "2024-03" (Dict.keys (contractMap m))
      = Ok feed /\
    [Scenario.site_a_row 5 1; Scenario.site_a_row 7 2] = (rows ++ extra)%list /\
    Forall2 (fun st row =>
               row_cpcode row = st_cpcode (snd st) /\
               row_hits row = Present (st_hits (snd st)) /\
               row_gb row = Present (st_gb (snd st)) /\
               catalog_contract m row)
      feed rows.
Proof.
  apply (usage_row_contract 10 Scenario.two_contracts "X" "2024-03" false).
  vm_compute. reflexivity.
Defined.

(** In that run the second statistic was fetched for contract [ctr_2] and
    its row still says contract [1]. *)
Example fetched_under_other_contract :
  cptrafficPerMonth 10 Scenario.two_contracts "X" "2024-03" false
    = Ok [Scenario.site_a_row 5 1; Scenario.site_a_row 7 2] /\
  option_map (map fst)
    (match usageFeed Scenario.two_contracts "X" "2024-03" ["ctr_1"; "ctr_2"] with
     | Ok feed => Some feed
     | Err _ => None
     end) = Some ["ctr_1"; "ctr_2"] /\
  row_contract (Scenario.site_a_row 7 2) = "1".
Proof. repeat split; vm_compute; reflexivity. Qed.

(** C6: in every row of the report the first-level names are those of the
    groups the CP code belongs to, group by group: a group whose path has
    exactly two names gives [path[1]], any other group gives nothing. *)
Theorem first_level_attribution depth api product month inc traffic :
  cptrafficPerMonth depth api product month inc = Ok traffic ->
  exists m var,
    buildMaps depth api = Ok (m, var) /\
    Forall (fun row =>
              exists gids groups,
                Dict.get Z.eqb (row_cpcode row) (mapCpcodeAccgroup m) = Some gids /\
                Forall2 (fun gid g => Dict.get Z.eqb gid (groupmap m) = Some g)
                  gids groups /\
                row_groupPath row
                = flat_map
                    (fun g => if Nat.eqb (List.length (path g)) 2
                              then [nth 1 (path g) EmptyString] else [])
                    groups)
      traffic.
Proof.
  intros H.
  destruct (run_rows _ _ _ _ _ _ H)
    as (m & var & rows & added & feed & extra & B & U & F & R & -> & X).
  exists m, var. split; [exact B|]. apply Forall_app. split.
  - clear -R. induction R as [|st row feed rows Hr R IH]; constructor; auto.
    apply usageRow_inv in Hr. apply Hr.
  - clear -X. induction X as [|it row its extra Hr X IH]; constructor; auto.
    apply noTrafficRow_some in Hr. apply Hr.
Qed.

(** Groups at depth one, two and three: only the one at depth two names a
    first-level group. *)
Example first_level_depths :
  let g p := {| group := Scenario.team; rootContractId := Some "ctr_1"; path := p |} in
  firstLevelLoop
    [ (1, g ["1-ACME"]); (2, g ["1-ACME"; "Team"]); (3, g ["1-ACME"; "Team"; "Web"]) ]
    [1; 2; 3] []
  = Ok ["Team"].
Proof. reflexivity. Qed.

Lemma first_level_attribution_witness :
  exists m var,
    buildMaps 10 Scenario.example = Ok (m, var) /\
    Forall (fun row =>
              exists gids groups,
                Dict.get Z.eqb (row_cpcode row) (mapCpcodeAccgroup m) = Some gids /\
                Forall2 (fun gid g => Dict.get Z.eqb gid (groupmap m) = Some g)
                  gids groups /\
                row_groupPath row
                = flat_map
                    (fun g => if Nat.eqb (List.length (path g)) 2
                              then [nth 1 (path g) EmptyString] else [])
                    groups)
      [ {| row_contract := "1"; row_cpcode := 100; row_name := "Site-A";
           row_groupPath := ["Team"]; row_repGroups := ["RG1"; "RG2"];
           row_hits := Present (Some 500000%Q);
           row_gb := Present (Some 12.5%Q) |} ].
Proof.
  apply (first_level_attribution 10 Scenario.example "X" "2024-03" false).
  vm_compute. reflexivity.
Defined.

Lemma usage_rows_count m feed rows e :
  Forall2 (fun st row => usageRow m (snd st) = Ok row) feed rows ->
  stat_rows e rows = occurrences e feed /\ plain_rows e rows = 0%nat.
Proof.
  intros R. unfold stat_rows, plain_rows, occurrences. split.
  - symmetry. apply (filter_length_Forall2 _ _ _ _ _ R).
    intros st row Hr. apply usageRow_inv in Hr as (-> & Hh & _).
    unfold with_stats. rewrite Hh. now rewrite andb_true_r.
  - rewrite filter_none; [reflexivity|].
    intros row Hin. apply (Forall2_in_r _ _ _ _ R) in Hin as (st & _ & Hr).
    apply usageRow_inv in Hr as (_ & Hh & _).
    unfold with_stats. rewrite Hh. apply andb_false_r.
Qed.

Lemma plain_rows_count m items extra e :
  Forall2 (fun item row => noTrafficRow m (fst item) (snd item) = Ok (Some row))
    items extra ->
  stat_rows e extra = 0%nat /\
  plain_rows e extra
  = List.length (filter (fun it : Z * CpCode => Z.eqb (fst it) e) items).
Proof.
  intros X. unfold stat_rows, plain_rows. split.
  - rewrite filter_none; [reflexivity|].
    intros row Hin. apply (Forall2_in_r _ _ _ _ X) in Hin as (it & _ & Hr).
    apply noTrafficRow_some in Hr as (_ & _ & Hh & _).
    unfold with_stats. rewrite Hh. apply andb_false_r.
  - symmetry. apply (filter_length_Forall2 _ _ _ _ _ X).
    intros it row Hr. apply noTrafficRow_some in Hr as (-> & _ & Hh & _).
    unfold with_stats. rewrite Hh. now rewrite andb_true_r.
Qed.

Lemma count_app f (l1 l2 : list Row) :
  List.length (filter f (l1 ++ l2))
  = (List.length (filter f l1) + List.length (filter f l2))%nat.
Proof. now rewrite filter_app, List.length_app. Qed.

(** The rows of a CP code in terms of [addedCpCodes]: one row with
    statistics per statistic of the feed, and one row without statistics
    exactly for the catalog entries that are not in the set and pass the
    filters. *)
Lemma rows_by_tracking depth api product month inc traffic :
  cptrafficPerMonth depth api product month inc = Ok traffic ->
  exists m var rows added feed,
    buildMaps depth api = Ok (m, var) /\
    usagePhase api m var product month = Ok (rows, added) /\
    usageFeed api product month (Dict.keys (contractMap m)) = Ok feed /\
    forall e,
      stat_rows e traffic = occurrences e feed /\
      (plain_rows e traffic <= 1)%nat /\
      (plain_rows e traffic = 1%nat <->
       inc = false /\ set_mem e added = false /\
       exists cpcode,
         Dict.get Z.eqb e (cpcodeMap m) = Some cpcode /\
         validContract cpcode = true /\ validProduct cpcode = true).
Proof.
  intros H.
  destruct (run_rows _ _ _ _ _ _ H)
    as (m & var & rows & added & feed & extra & B & U & F & R & -> & X).
  exists m, var, rows, added, feed. repeat (split; [assumption|]).
  intros e.
  destruct (usage_rows_count _ _ _ e R) as [S1 P1].
  destruct (plain_rows_count _ _ _ e X) as [S2 P2].
  assert (N : NoDup (map fst (cpcodeMap m))).
  { rewrite (buildMaps_cpcodeMap _ _ _ _ B). apply cpcodesIndex_nodup. }
  unfold stat_rows, plain_rows in *. rewrite !count_app, S1, S2, P1, P2.
  split; [lia|]. cbn [Nat.add].
  destruct inc.
  - cbn. split; [lia|]. split; [discriminate | intros [[=] _]].
  - destruct (key_count (filter (pending added) (cpcodeMap m)) e
                (nodup_keys_filter _ _ N)) as [K1 K2].
    split; [exact K1|]. rewrite K2. split.
    + intros [cp Hin]. apply filter_In in Hin as [Hin Hp].
      unfold pending, eligible in Hp. cbn [fst snd] in Hp.
      apply andb_true_iff in Hp as [Hm Hp].
      apply andb_true_iff in Hp as [Hc Hp].
      apply negb_true_iff in Hm.
      repeat split; auto. exists cp. repeat split; auto.
      now apply (dict_in_get Z.eqb Z.eqb_eq).
    + intros (_ & Hm & cp & G & Hc & Hp). exists cp. apply filter_In. split.
      * now apply (dict_get_in Z.eqb Z.eqb_eq).
      * unfold pending, eligible. cbn [fst snd]. now rewrite Hm, Hc, Hp.
Qed.

Lemma statsLoop_var m cpstats : forall traffic var traffic' var',
  statsLoop m cpstats traffic var = Ok (traffic', var') ->
  var' = var \/ exists st, In st cpstats /\ var' = CpcodeInt (st_cpcode st).
Proof.
  induction cpstats as [|st rest IH]; intros traffic var traffic' var' H;
    cbn [statsLoop] in H.
  - injection H as _ <-. now left.
  - destruct (usageRow m st) as [row|]; [|discriminate]. cbn [Py.bind] in H.
    right. destruct (IH _ _ _ _ H) as [-> | (st' & Hin & ->)].
    + exists st. split; [now left | reflexivity].
    + exists st'. split; [now right | reflexivity].
Qed.

(** What the usage loop can put in [addedCpCodes]: CP codes of the feed,
    and the value [cpcodeId] had when the loop began. *)
Lemma usageLoop_added api m product month keys :
  forall traffic added var traffic' added' var' feed,
  usageLoop api m product month keys traffic added var
    = Ok (traffic', added', var') ->
  usageFeed api product month keys = Ok feed ->
  (forall e, In e added' ->
     In e added \/ var = CpcodeInt e \/
     In e (map (fun st => st_cpcode (snd st)) feed)) /\
  (var' = var \/
   exists st, In st feed /\ var' = CpcodeInt (st_cpcode (snd st))).
Proof.
  induction keys as [|contract rest IH];
    intros traffic added var traffic' added' var' feed H F;
    cbn [usageLoop usageFeed] in *.
  - injection H as _ <- <-. split; [auto | now left].
  - destruct (getCpStatistics api (Py.replace contract "ctr_" "") product month)
      as [cpstats|]; [|discriminate].
    cbn [Py.bind] in *.
    destruct (statsLoop m cpstats traffic var) as [[t1 v1]|] eqn:S; [|discriminate].
    cbn [Py.bind] in H.
    destruct (set_add v1 added) as [a1|] eqn:A; [|discriminate].
    cbn [Py.bind] in H.
    destruct (usageFeed api product month rest) as [feed'|]; [|discriminate].
    cbn [Py.bind] in F. injection F as <-.
    destruct (IH _ _ _ _ _ _ feed' H eq_refl) as [Hadd Hvar].
    pose proof (statsLoop_var _ _ _ _ _ _ S) as V1.
    assert (V1' : v1 = var \/
                  exists st, In st (map (pair contract) cpstats ++ feed')%list /\
                             v1 = CpcodeInt (st_cpcode (snd st))).
    { destruct V1 as [-> | (st & Hin & ->)]; [now left|]. right.
      exists (contract, st). split; [|reflexivity].
      apply in_or_app. left. now apply in_map. }
    split.
    + intros e He. rewrite map_app, in_app_iff.
      destruct (Hadd e He) as [Ha | [Hv | Hf]].
      * destruct v1 as [| |z]; try discriminate A. injection A as <-.
        destruct Ha as [<- | Ha]; [|now left].
        destruct V1' as [-> | (st & Hin & [= ->])]; [now right; left|].
        right; right. rewrite <- in_app_iff, <- map_app.
        now apply (in_map (fun st => st_cpcode (snd st))) in Hin.
      * subst v1.
        destruct V1' as [<- | (st & Hin & [= ->])]; [now right; left|].
        right; right. rewrite <- in_app_iff, <- map_app.
        now apply (in_map (fun st => st_cpcode (snd st))) in Hin.
      * right; right. now right.
    + destruct Hvar as [-> | (st & Hin & ->)].
      * destruct V1' as [-> | (st & Hin & ->)]; [now left|]. right. now exists st.
      * right. exists st. split; [|reflexivity]. apply in_or_app. now right.
Qed.

Lemma occurrences_none e feed :
  occurrences e feed = 0%nat ->
  ~ In e (map (fun st : string * CpStat => st_cpcode (snd st)) feed).
Proof.
  unfold occurrences. intros H Hin.
  apply in_map_iff in Hin as (st & <- & Hin).
  assert (Hf : In st (filter (fun st0 : string * CpStat =>
                                Z.eqb (st_cpcode (snd st0)) (st_cpcode (snd st)))
                        feed))
    by (apply filter_In; split; [exact Hin | apply Z.eqb_refl]).
  destruct (filter _ feed); [destruct Hf | discriminate H].
Qed.

(** C1 (as amended): in a successful run every statistic of the usage read
    for the contracts yields exactly one row with statistics, so a CP code
    has as many such rows as it has statistics in the usage of all the
    contracts together; no CP code has more than one row without
    statistics; and a CP code that has no statistic in the usage, and is
    not the id the group loop left in the variable [cpcodeId], has a row
    (one, without statistics) exactly when [includeNoTraffic] is false, it
    is in the catalog and it passes the two filters. *)
Theorem rows_per_cpcode depth api product month inc traffic :
  cptrafficPerMonth depth api product month inc = Ok traffic ->
  exists m var feed,
    buildMaps depth api = Ok (m, var) /\
    usageFeed api product month (Dict.keys (contractMap m)) = Ok feed /\
    forall e,
      stat_rows e traffic = occurrences e feed /\
      (plain_rows e traffic <= 1)%nat /\
      (occurrences e feed = 0%nat -> var <> CpcodeInt e ->
       (plain_rows e traffic = 1%nat <->
        inc = false /\
        exists cpcode,
          Dict.get Z.eqb e (cpcodeMap m) = Some cpcode /\
          validContract cpcode = true /\ validProduct cpcode = true)).
Proof.
  intros H.
  destruct (rows_by_tracking _ _ _ _ _ _ H)
    as (m & var & rows & added & feed & B & U & F & R).
  exists m, var, feed. repeat (split; [assumption|]).
  intros e. destruct (R e) as (S & P & I). repeat (split; [assumption|]).
  intros O V. rewrite I.
  assert (M : set_mem e added = false).
  { unfold usagePhase in U.
    destruct (usageLoop api m product month (Dict.keys (contractMap m)) [] [] var)
      as [[[t a] v]|] eqn:L; [|discriminate].
    cbn [Py.bind] in U. injection U as _ ->.
    destruct (usageLoop_added _ _ _ _ _ _ _ _ _ _ _ _ L F) as [Hadd _].
    unfold set_mem. destruct (existsb (Z.eqb e) added) eqn:X; [|reflexivity].
    apply existsb_exists in X as (x & Hx & Ex). apply Z.eqb_eq in Ex as <-.
    destruct (Hadd e Hx) as [[] | [Hv | Hf]]; [congruence|].
    exfalso. now apply (occurrences_none e feed O). }
  split; [intros (Hi & _ & Hc); auto | intros (Hi & Hc); auto].
Qed.

Lemma rows_per_cpcode_witness :
  exists m var feed,
    buildMaps 10 Scenario.mixed = Ok (m, var) /\
    usageFeed Scenario.mixed "X" "2024-03" (Dict.keys (contractMap m)) = Ok feed /\
    forall e,
      stat_rows e Scenario.mixed_rows = occurrences e feed /\
      (plain_rows e Scenario.mixed_rows <= 1)%nat /\
      (occurrences e feed = 0%nat -> var <> CpcodeInt e ->
       (plain_rows e Scenario.mixed_rows = 1%nat <->
        false = false /\
        exists cpcode,
          Dict.get Z.eqb e (cpcodeMap m) = Some cpcode /\
          validContract cpcode = true /\ validProduct cpcode = true)).
Proof.
  apply (rows_per_cpcode 10 Scenario.mixed "X" "2024-03" false).
  vm_compute. reflexivity.
Defined.

(** In that run CP code 200 has no usage, is not the id left by the group
    loop, passes the filters, and has its one row; CP code 100 has one
    statistic and one row. *)
Example mixed_report :
  cptrafficPerMonth 10 Scenario.mixed "X" "2024-03" false = Ok Scenario.mixed_rows /\
  (exists m, buildMaps 10 Scenario.mixed = Ok (m, CpcodeInt 100)) /\
  stat_rows 100 Scenario.mixed_rows = 1%nat /\
  plain_rows 100 Scenario.mixed_rows = 0%nat /\
  stat_rows 200 Scenario.mixed_rows = 0%nat /\
  plain_rows 200 Scenario.mixed_rows = 1%nat.
Proof.
  repeat split; try (vm_compute; reflexivity).
  eexists. vm_compute. reflexivity.
Qed.

(** C1 (as stated) fails: CP code 100 is in the catalog and in the usage
    of two contracts, and the report has two rows for it. *)
Lemma two_rows_for_one_cpcode :
  Dict.mem Z.eqb 100 (cpcodesIndex (cprg_cpcodes Scenario.two_contracts)) = true /\
  cptrafficPerMonth 10 Scenario.two_contracts "X" "2024-03" false
    = Ok [Scenario.site_a_row 5 1; Scenario.site_a_row 7 2] /\
  List.length
    (filter (fun r => Z.eqb (row_cpcode r) 100)
       [Scenario.site_a_row 5 1; Scenario.site_a_row 7 2]) = 2%nat.
Proof. repeat split; vm_compute; reflexivity. Qed.

End Report.

(* ------------------------------------------------------------------ *)
(** ** Summary of reporting groups *)

Section Summary.

Open Scope Q_scope.

Lemma total_cons col k b s :
  total col ((k, b) :: s) = col b + total col s.
Proof. reflexivity. Qed.

Lemma total_set_present col k b b' s :
  Dict.get String.eqb k s = Some b ->
  total col (Dict.set String.eqb k b' s) == total col s - col b + col b'.
Proof.
  induction s as [|[k' v'] s IH]; cbn [Dict.get Dict.set]; [discriminate|].
  destruct (String.eqb k k').
  - intros [= ->]. rewrite !total_cons. ring.
  - intros H. rewrite !total_cons, (IH H). ring.
Qed.

Lemma total_set_absent col k b' s :
  Dict.get String.eqb k s = None ->
  total col (Dict.set String.eqb k b' s) == total col s + col b'.
Proof.
  induction s as [|[k' v'] s IH]; cbn [Dict.get Dict.set].
  - intros _. unfold total. cbn. ring.
  - destruct (String.eqb k k'); [discriminate|].
    intros H. rewrite !total_cons, (IH H). ring.
Qed.

Lemma get_set_same k (b : Bucket) s :
  Dict.get String.eqb k (Dict.set String.eqb k b s) = Some b.
Proof.
  induction s as [|[k' v'] s IH]; cbn [Dict.get Dict.set].
  - now rewrite String.eqb_refl.
  - destruct (String.eqb k k') eqn:E; cbn [Dict.get]; now rewrite E.
Qed.

(** Creating an empty bucket does not change the totals. *)
Lemma touch_total key s :
  (exists b, Dict.get String.eqb key (touch key s) = Some b) /\
  total hits (touch key s) == total hits s /\
  total gb (touch key s) == total gb s.
Proof.
  unfold touch, Dict.mem.
  destruct (Dict.get String.eqb key s) as [b|] eqn:G.
  - split; [now exists b|]. split; reflexivity.
  - split; [eexists; apply get_set_same|].
    split; rewrite (total_set_absent _ _ _ _ G); cbn; ring.
Qed.

Lemma credit_total key row s x y :
  row_get (row_hits row) 0 = Some x -> row_get (row_gb row) 0 = Some y ->
  exists s',
    credit key row s = Ok s' /\
    total hits s' == total hits s + x /\ total gb s' == total gb s + y.
Proof.
  intros Hx Hy. unfold credit, Dict.getitem.
  destruct (touch_total key s) as ([b G] & Th & Tg).
  rewrite G, Hx, Hy. cbn [Py.bind num_add].
  eexists; split; [reflexivity|].
  split; rewrite (total_set_present _ _ _ _ _ G); cbn [hits gb];
    [rewrite Th | rewrite Tg]; ring.
Qed.

Lemma debit_total n row s x y :
  row_get (row_hits row) 0 = Some x -> row_get (row_gb row) 0 = Some y ->
  exists s',
    debit n row s = Ok s' /\
    total hits s' == total hits s - x * inject_Z n /\
    total gb s' == total gb s - y * inject_Z n.
Proof.
  intros Hx Hy. unfold debit, Dict.getitem.
  destruct (touch_total "#Multiple" s) as ([b G] & Th & Tg).
  rewrite G, Hx, Hy. cbn [Py.bind num_mul num_sub].
  eexists; split; [reflexivity|].
  split; rewrite (total_set_present _ _ _ _ _ G); cbn [hits gb];
    [rewrite Th | rewrite Tg]; ring.
Qed.

Lemma creditAll_total rgs row x y :
  row_get (row_hits row) 0 = Some x -> row_get (row_gb row) 0 = Some y ->
  forall s, exists s',
    creditAll rgs row s = Ok s' /\
    total hits s' == total hits s + x * inject_Z (Z.of_nat (List.length rgs)) /\
    total gb s' == total gb s + y * inject_Z (Z.of_nat (List.length rgs)).
Proof.
  intros Hx Hy. induction rgs as [|rg rest IH]; intros s.
  - exists s. split; [reflexivity|].
    change (inject_Z (Z.of_nat (List.length (@nil string)))) with 0.
    split; ring.
  - destruct (credit_total rg row s x y Hx Hy) as (s1 & E1 & H1 & G1).
    destruct (IH s1) as (s2 & E2 & H2 & G2).
    exists s2. cbn [creditAll]. rewrite E1. cbn [Py.bind].
    split; [exact E2|].
    rewrite H2, G2, H1, G1.
    change (List.length (rg :: rest)) with (S (List.length rest)).
    rewrite Nat2Z.inj_succ. unfold Z.succ. rewrite inject_Z_plus.
    split; ring.
Qed.

Lemma summable_get f : summable f = true -> row_get f 0 = Some (stat_or_zero f).
Proof. destruct f as [|[v|]]; cbn; congruence. Qed.

(** One row moves each total by the row's statistic, counted once. *)
Lemma sumRow_total row s :
  summable (row_hits row) = true -> summable (row_gb row) = true ->
  exists s',
    sumRow row s = Ok s' /\
    total hits s' == total hits s + stat_or_zero (row_hits row) /\
    total gb s' == total gb s + stat_or_zero (row_gb row).
Proof.
  intros Sh Sg.
  pose proof (summable_get _ Sh) as Hx. pose proof (summable_get _ Sg) as Hy.
  set (x := stat_or_zero (row_hits row)) in *.
  set (y := stat_or_zero (row_gb row)) in *.
  unfold sumRow.
  destruct (creditAll_total (row_repGroups row) row x y Hx Hy s)
    as (s1 & E1 & H1 & G1).
  rewrite E1. cbn [Py.bind].
  destruct (row_repGroups row) as [|rg [|rg' rest]] eqn:K.
  - cbn [List.length Nat.eqb Nat.ltb Nat.leb].
    destruct (credit_total "#None" row s1 x y Hx Hy) as (s2 & E2 & H2 & G2).
    rewrite E2. cbn [Py.bind]. exists s2. split; [reflexivity|].
    rewrite H2, G2, H1, G1. cbn. split; ring.
  - cbn [List.length Nat.eqb Nat.ltb Nat.leb Py.bind].
    exists s1. split; [reflexivity|]. rewrite H1, G1. cbn. split; ring.
  - cbn [Nat.eqb Nat.ltb Nat.leb Py.bind List.length].
    destruct (debit_total
                (Z.of_nat (S (S (List.length rest))) - 1) row s1 x y Hx Hy)
      as (s2 & E2 & H2 & G2).
    rewrite E2. exists s2. split; [reflexivity|].
    rewrite H2, G2, H1, G1. cbn [List.length].
    set (k := Z.of_nat (S (S (List.length rest)))).
    replace (k - 1)%Z with (k + -1)%Z by reflexivity.
    rewrite inject_Z_plus. change (inject_Z (-1)) with (-1 # 1).
    split; ring.
Qed.

(** The identity of the summary in exact arithmetic, for rows whose
    statistics are numbers or absent keys: the table is produced, and the
    totals of all its buckets (named groups, [#None], [#Multiple]) are the
    sums of the statistics of the rows, each row counted once. *)
Lemma summary_identity rows : forall s,
  Forall (fun r => summable (row_hits r) = true /\ summable (row_gb r) = true)
    rows ->
  exists s',
    sumRepGroups rows s = Ok s' /\
    total hits s' == total hits s + rows_total row_hits rows /\
    total gb s' == total gb s + rows_total row_gb rows.
Proof.
  induction rows as [|row rest IH]; intros s F.
  - exists s. split; [reflexivity|]. cbn. split; ring.
  - inversion_clear F as [|? ? [Sh Sg] F'].
    destruct (sumRow_total row s Sh Sg) as (s1 & E1 & H1 & G1).
    destruct (IH s1 F') as (s2 & E2 & H2 & G2).
    exists s2. cbn [sumRepGroups]. rewrite E1. cbn [Py.bind].
    split; [exact E2|]. rewrite H2, G2, H1, G1.
    unfold rows_total. cbn [fold_right]. split; ring.
Qed.

(** A statistic that is there with the value [None] stops the summary at
    the first [+=], whatever the reporting groups of the row. *)
Lemma sumRow_none row s :
  row_hits row = Present None -> sumRow row s = Err TypeError.
Proof.
  intros H. unfold sumRow.
  destruct (row_repGroups row) as [|rg rest].
  - cbn [creditAll Py.bind List.length Nat.eqb].
    unfold credit, Dict.getitem.
    destruct (touch_total "#None" s) as ([b G] & _). rewrite G, H. reflexivity.
  - cbn [creditAll]. unfold credit at 1. unfold Dict.getitem.
    destruct (touch_total rg s) as ([b G] & _). rewrite G, H. reflexivity.
Qed.

End Summary.

(* ------------------------------------------------------------------ *)
(** ** Where the script stops or leaves a CP code out *)

Section Failures.

(** C2: the summary does not reach its table when a row has a statistic
    whose value is [None].  The usage loop writes such a row for a CP code
    whose usage has "Bytes" and no "Hits"; [row.get("hits", 0)] then returns
    [None], not [0], and the first [+=] raises [TypeError].  On all other
    rows the identity holds ([summary_identity]). *)
Theorem summary_stops_on_none :
  cptrafficPerMonth 10 Scenario.bytes_only_usage "X" "2024-03" false
    = Ok [Scenario.bytes_only] /\
  row_get (row_hits Scenario.bytes_only) 0 = None /\
  sumRepGroups [Scenario.bytes_only] [] = Err TypeError.
Proof. repeat split; vm_compute; reflexivity. Qed.

(** The example of the specification goes through, with the totals
    announced there. *)
Example summary_example :
  (rows <- cptrafficPerMonth 10 Scenario.example "X" "2024-03" false ;;
   sumRepGroups rows [])
  = Ok [ ("RG1", {| hits := 500000; gb := 12.5 |});
         ("RG2", {| hits := 500000; gb := 12.5 |});
         ("#Multiple", {| hits := -500000; gb := -12.5 |}) ].
Proof. vm_compute. reflexivity. Qed.

(** C3: a catalog CP code that has no usage, an "ongoing" contract and a
    delivery product is left out of the report when the usage of a contract
    is empty: [addedCpCodes.add(cpcodeId)] runs once per contract, after the
    loop over the statistics, and with no statistic [cpcodeId] still holds
    the last CP code of the group loop. *)
Theorem quiet_cpcode_left_out :
  usageFeed Scenario.quiet "X" "2024-03" ["ctr_1"] = Ok [] /\
  Dict.get Z.eqb 100 (cpcodesIndex (cprg_cpcodes Scenario.quiet))
    = Some Scenario.site_a /\
  validContract Scenario.site_a = true /\
  validProduct Scenario.site_a = true /\
  (exists m var,
     buildMaps 10 Scenario.quiet = Ok (m, var) /\ var = CpcodeInt 100 /\
     usagePhase Scenario.quiet m var "X" "2024-03" = Ok ([], [100])) /\
  cptrafficPerMonth 10 Scenario.quiet "X" "2024-03" false = Ok [].
Proof.
  repeat split; try (vm_compute; reflexivity).
  eexists _, _. repeat split; vm_compute; reflexivity.
Qed.

(** The same line keeps only the last CP code of a contract: a CP code with
    usage that is not the last one gets a second row, without statistics. *)
Example busy_cpcode_twice :
  cptrafficPerMonth 10 Scenario.busy "X" "2024-03" false
  = Ok [ Scenario.site_a_row 5 1;
         {| row_contract := "1"; row_cpcode := 200; row_name := "Site-B";
            row_groupPath := ["Team"]; row_repGroups := [];
            row_hits := Present (Some 7%Q); row_gb := Present (Some 2%Q) |};
         {| row_contract := "1"; row_cpcode := 100; row_name := "Site-A";
            row_groupPath := ["Team"]; row_repGroups := [];
            row_hits := Missing; row_gb := Missing |} ].
Proof. vm_compute. reflexivity. Qed.

(** When the contracts have no usage and the groups no CP code, [cpcodeId]
    is still the last contract object and the [add] itself fails. *)
Example add_of_contract_object :
  cptrafficPerMonth 10 Scenario.idle "X" "2024-03" false = Err TypeError.
Proof. vm_compute. reflexivity. Qed.

(** A CP code without entry in the catalog or in the group map stops the
    row of its statistic; a CP code without reporting group gets the empty
    list. *)
Lemma usageRow_unresolved m st :
  Dict.get Z.eqb (st_cpcode st) (cpcodeMap m) = None \/
  Dict.get Z.eqb (st_cpcode st) (mapCpcodeAccgroup m) = None ->
  usageRow m st = Err KeyError.
Proof.
  unfold usageRow, Dict.getitem. intros [H | H].
  - now rewrite H.
  - rewrite H. now destruct (Dict.get Z.eqb (st_cpcode st) (cpcodeMap m)).
Qed.

Lemma repgroupnames_unresolved m e :
  Dict.get Z.eqb e (mapCpcodeRepgroup m) = None -> repgroupnames m e = [].
Proof. unfold repgroupnames. now intros ->. Qed.

(** C5: the report is not produced when a CP code is missing from the
    group map or from the catalog: [mapCpcodeAccgroup[cpcodeId]] and
    [cpcodeMap[cpcodeId]] raise [KeyError], in the usage loop and in the
    no-traffic branch alike.  Only the reporting groups are looked up
    with a test first. *)
Theorem unresolved_reference_stops_report :
  (exists m var,
     buildMaps 10 Scenario.orphan = Ok (m, var) /\
     Dict.get Z.eqb 100 (cpcodeMap m) = Some Scenario.site_a /\
     Dict.get Z.eqb 100 (mapCpcodeAccgroup m) = None /\
     Dict.get Z.eqb 100 (mapCpcodeRepgroup m) = None) /\
  cptrafficPerMonth 10 Scenario.orphan "X" "2024-03" false = Err KeyError /\
  cptrafficPerMonth 10 Scenario.orphan_quiet "X" "2024-03" false = Err KeyError /\
  cptrafficPerMonth 10 Scenario.unlisted "X" "2024-03" false = Err KeyError.
Proof.
  split; [eexists _, _|]; repeat split; vm_compute; reflexivity.
Qed.

End Failures.

(* ================================================================== *)
(** * Further properties of the helper functions *)

Section MonthAddMore.

(** Whatever the input, a month that [month_add] returns is printed from a
    year and a month number between 1 and 12. *)
Theorem month_add_in_range m n m' :
  month_add m n = Ok m' ->
  exists y mm,
    m' = Py.format0 4 y ++ "-" ++ Py.format0 2 mm /\ 1 <= mm <= 12.
Proof.
  unfold month_add.
  destruct (Py.split "-"%char m) as [|ys [|ms [|]]]; try discriminate.
  destruct (Py.int ys) as [y|]; [|discriminate].
  destruct (Py.int ms) as [mm|]; [|discriminate].
  cbn [Py.bind].
  pose proof (loops_normalise y (mm + n)) as H.
  destruct (while_above (S (Z.abs_nat (mm + n))) y (mm + n)) as [y1 m1].
  destruct (while_below (S (Z.abs_nat m1)) y1 m1) as [y2 m2].
  intros [= <-]. exists y2, m2. split; [reflexivity | lia].
Qed.

Lemma month_add_in_range_witness :
  exists y mm,
    "2025-02" = Py.format0 4 y ++ "-" ++ Py.format0 2 mm /\ 1 <= mm <= 12.
Proof. apply (month_add_in_range "2024-11" 3). reflexivity. Defined.

(** Adding zero months to a month string returns it unchanged. *)
Theorem month_add_zero m :
  is_month m = true -> month_add m 0 = Ok m.
Proof.
  intros Hm.
  destruct (is_month_inv m Hm)
    as (ys & ms & y & mm & -> & Hys & Hms & Hy & Hmm & Hy0 & Hr & Fy & Fm).
  destruct (month_add_digits ys ms y mm 0 Hys Hms Hy Hmm)
    as (y1 & m1 & E1 & I1 & R1).
  rewrite E1. assert (y1 = y) by lia. assert (m1 = mm) by lia. subst y1 m1.
  now rewrite Fy, Fm.
Qed.

Lemma month_add_zero_witness : month_add "1999-12" 0 = Ok "1999-12".
Proof. apply month_add_zero. reflexivity. Defined.

(** Two additions in a row are one addition of the sum, as long as the
    month in between does not fall before year 0. *)
Theorem month_add_compose m a b m1 :
  is_month m = true -> 0 <= month_index m + a ->
  month_add m a = Ok m1 ->
  month_add m1 b = month_add m (a + b).
Proof.
  intros Hm Ha E.
  destruct (is_month_inv m Hm)
    as (ys & ms & y & mm & -> & Hys & Hms & Hy & Hmm & Hy0 & Hr & Fy & Fm).
  rewrite (month_index_digits _ _ _ _ Hys Hms Hy Hmm) in Ha.
  destruct (month_add_digits ys ms y mm a Hys Hms Hy Hmm)
    as (y1 & k1 & E1 & I1 & R1).
  rewrite E1 in E. injection E as <-.
  assert (Hy1 : 0 <= y1) by lia.
  change (Py.format0 4 y1 ++ "-" ++ Py.format0 2 k1)
    with (Py.format0 4 y1 ++ String "-"%char (Py.format0 2 k1)).
  destruct (month_add_digits (Py.format0 4 y1) (Py.format0 2 k1) y1 k1 b)
    as (y2 & k2 & E2 & I2 & R2).
  - now apply format0_digits.
  - apply format0_digits; lia.
  - now apply int_format0.
  - apply int_format0; lia.
  - destruct (month_add_digits ys ms y mm (a + b) Hys Hms Hy Hmm)
      as (y3 & k3 & E3 & I3 & R3).
    rewrite E2, E3.
    assert (y2 = y3) by lia. assert (k2 = k3) by lia. now subst y2 k2.
Qed.

Lemma month_add_compose_witness :
  month_add "2024-12" (-30) = month_add "2024-03" (9 + -30).
Proof.
  apply (month_add_compose "2024-03" 9 (-30) "2024-12");
    [reflexivity | vm_compute; discriminate | reflexivity].
Defined.

Lemma four_digits_upto_9999 :
  forallb (fun n => Nat.eqb (String.length (Py.format0 4 (Z.of_nat n))) 4)
    (seq 0 (100 * 100)) = true.
Proof. vm_compute. reflexivity. Qed.

Lemma format0_4_length y :
  0 <= y <= 9999 -> String.length (Py.format0 4 y) = 4%nat.
Proof.
  intros Hy. pose proof four_digits_upto_9999 as H.
  rewrite forallb_forall in H.
  specialize (H (Z.to_nat y)). rewrite Z2Nat.id in H by lia.
  apply Nat.eqb_eq, H, in_seq. lia.
Qed.

Lemma format0_2_length mm :
  1 <= mm <= 12 -> String.length (Py.format0 2 mm) = 2%nat.
Proof.
  intros H.
  assert (mm = 1 \/ mm = 2 \/ mm = 3 \/ mm = 4 \/ mm = 5 \/ mm = 6 \/ mm = 7 \/
          mm = 8 \/ mm = 9 \/ mm = 10 \/ mm = 11 \/ mm = 12) as C by lia.
  repeat destruct C as [-> | C]; try subst mm; reflexivity.
Qed.

Lemma is_month_format y mm :
  0 <= y <= 9999 -> 1 <= mm <= 12 ->
  is_month (Py.format0 4 y ++ "-" ++ Py.format0 2 mm) = true.
Proof.
  intros Hy Hm.
  pose proof (format0_4_length y Hy) as Ly.
  pose proof (format0_2_length mm Hm) as Lm.
  pose proof (format0_digits 4 y ltac:(lia)) as Dy.
  pose proof (format0_digits 2 mm ltac:(lia)) as Dm.
  pose proof (int_format0 2 mm ltac:(lia)) as Im.
  destruct (Py.format0 4 y) as [|a [|b [|c [|d [|]]]]]; try discriminate Ly.
  destruct (Py.format0 2 mm) as [|e [|f [|]]]; try discriminate Lm.
  cbn [Py.all_digits] in Dy, Dm.
  apply andb_true_iff in Dy as [Da Dy]. apply andb_true_iff in Dy as [Db Dy].
  apply andb_true_iff in Dy as [Dc Dy]. apply andb_true_iff in Dy as [Dd _].
  apply andb_true_iff in Dm as [De Dm]. apply andb_true_iff in Dm as [Df _].
  cbn [String.append is_month]. rewrite Im, Da, Db, Dc, Dd, De, Df.
  cbn [andb]. apply andb_true_iff; split; apply Z.leb_le; lia.
Qed.

(** A month of the years 0000 to 9999 plus a number of months that stays in
    those years is again a month string the script accepts. *)
Theorem month_add_closed m n :
  is_month m = true -> 0 <= month_index m + n < 120000 ->
  exists m', month_add m n = Ok m' /\ is_month m' = true.
Proof.
  intros Hm Hn.
  destruct (is_month_inv m Hm)
    as (ys & ms & y & mm & -> & Hys & Hms & Hy & Hmm & Hy0 & Hr & Fy & Fm).
  rewrite (month_index_digits _ _ _ _ Hys Hms Hy Hmm) in Hn.
  destruct (month_add_digits ys ms y mm n Hys Hms Hy Hmm)
    as (y1 & m1 & E1 & I1 & R1).
  eexists; split; [exact E1|]. apply is_month_format; lia.
Qed.

Lemma month_add_closed_witness :
  exists m', month_add "2024-12" 1 = Ok m' /\ is_month m' = true.
Proof.
  apply month_add_closed; [reflexivity | vm_compute; split; congruence].
Defined.

End MonthAddMore.

(* ------------------------------------------------------------------ *)
(** ** More on the hierarchy resolver *)

Section HierarchyMore.

Lemma rootContract_from_parent groups p :
  Acc (parent_edge groups) p ->
  forall x, find_group p groups = Some x ->
  exists root d,
    resolves_to groups x root /\
    forall depth, (d <= depth)%nat ->
      rootContract depth x groups = Ok (ownContract root).
Proof.
  induction 1 as [p _ IH]. intros x Fx.
  destruct (parentGroupId x) as [p'|] eqn:P.
  - destruct (find_group p' groups) as [x'|] eqn:F'.
    + destruct (IH p' ltac:(now exists x) x' F') as (root & d & R & Hd).
      exists root, (S d). split; [now apply (resolves_up _ x p' x')|].
      intros [|depth] Hle; [lia|]. cbn [rootContract].
      rewrite P, F'. apply Hd. lia.
    + exists x, 1%nat. split; [apply resolves_here; now rewrite P|].
      intros [|depth] Hle; [lia|]. cbn [rootContract]. now rewrite P, F'.
  - exists x, 1%nat. split; [apply resolves_here; now rewrite P|].
    intros [|depth] Hle; [lia|]. cbn [rootContract]. now rewrite P.
Qed.

(** When the parent references are well founded, [rootContract] returns
    for every group once the stack is deep enough, and what it returns is
    the scan of the contracts of the group at the top of the chain of
    parents, not of the group itself. *)
Theorem rootContract_terminates groups :
  well_founded (parent_edge groups) ->
  forall g, exists root d,
    resolves_to groups g root /\
    forall depth, (d <= depth)%nat ->
      rootContract depth g groups = Ok (ownContract root).
Proof.
  intros W g.
  destruct (parentGroupId g) as [p|] eqn:P.
  - destruct (find_group p groups) as [x|] eqn:F.
    + destruct (rootContract_from_parent groups p (W p) x F)
        as (root & d & R & Hd).
      exists root, (S d). split; [now apply (resolves_up _ g p x)|].
      intros [|depth] Hle; [lia|]. cbn [rootContract].
      rewrite P, F. apply Hd. lia.
    + exists g, 1%nat. split; [apply resolves_here; now rewrite P|].
      intros [|depth] Hle; [lia|]. cbn [rootContract]. now rewrite P, F.
  - exists g, 1%nat. split; [apply resolves_here; now rewrite P|].
    intros [|depth] Hle; [lia|]. cbn [rootContract]. now rewrite P.
Qed.

Lemma rootContract_terminates_witness :
  exists root d,
    resolves_to [Scenario.acme; Scenario.team] Scenario.team root /\
    forall depth, (d <= depth)%nat ->
      rootContract depth Scenario.team [Scenario.acme; Scenario.team]
      = Ok (ownContract root).
Proof.
  exact (rootContract_terminates [Scenario.acme; Scenario.team]
           scenario_groups_well_founded Scenario.team).
Defined.

Lemma drop_all n s : (String.length s <= n)%nat -> Py.drop n s = EmptyString.
Proof.
  revert s. induction n as [|n IH]; intros [|c s] H; simpl in *;
    try reflexivity; try lia.
  apply IH. lia.
Qed.

Lemma contains_empty s : Py.contains EmptyString s = true.
Proof. destruct s; reflexivity. Qed.

(** A contract id of at most four characters matches any group name: for
    a group without parent whose first contract id is that short,
    [rootContract] returns it whatever the name of the group. *)
Theorem rootContract_short_id depth g groups c rest :
  parentGroupId g = None ->
  contractIds g = c :: rest ->
  (String.length c <= 4)%nat ->
  rootContract (S depth) g groups = Ok (Some c).
Proof.
  intros P C L. cbn [rootContract]. rewrite P, C. cbn [find].
  now rewrite (drop_all 4 c L), contains_empty.
Qed.

Lemma rootContract_short_id_witness :
  rootContract 1
    {| groupId := "grp_5"; groupName := "Marketing"; parentGroupId := None;
       contractIds := ["C-1"; "ctr_Marketing"] |} []
  = Ok (Some "C-1").
Proof. apply (rootContract_short_id 0 _ [] "C-1" ["ctr_Marketing"]); auto. Defined.

(** A path that [groupPath] returns is empty exactly when the id is not in
    the list; otherwise it ends with the name of the group found for the
    id, and it is no longer than the stack allowed. *)
Theorem groupPath_shape depth : forall gid groups names,
  groupPath depth gid groups = Ok names ->
  (names = [] <-> find_group gid groups = None) /\
  (forall g, find_group gid groups = Some g ->
             exists front, names = (front ++ [groupName g])%list) /\
  (List.length names <= depth)%nat.
Proof.
  induction depth as [|d IH]; intros gid groups names H; [discriminate|].
  cbn [groupPath] in H.
  destruct (find_group gid groups) as [g|] eqn:F.
  - destruct (parentGroupId g) as [p|].
    + destruct (groupPath d p groups) as [parent|] eqn:E; [|discriminate].
      injection H as <-. destruct (IH _ _ _ E) as (_ & _ & L).
      split; [|split].
      * split; [|discriminate]. intros Hn. now apply app_eq_nil in Hn as [_ Hn].
      * intros g' [= <-]. now exists parent.
      * rewrite List.length_app. cbn. lia.
    + injection H as <-. split; [|split].
      * split; discriminate.
      * intros g' [= <-]. now exists [].
      * cbn. lia.
  - injection H as <-. split; [|split].
    + tauto.
    + discriminate.
    + cbn. lia.
Qed.

Lemma groupPath_shape_witness :
  (["1-ACME"; "Team"] = [] <->
   find_group "grp_2" [Scenario.acme; Scenario.team] = None) /\
  (forall g, find_group "grp_2" [Scenario.acme; Scenario.team] = Some g ->
             exists front, ["1-ACME"; "Team"] = (front ++ [groupName g])%list) /\
  (List.length ["1-ACME"; "Team"] <= 5)%nat.
Proof.
  apply (groupPath_shape 5 "grp_2" [Scenario.acme; Scenario.team]). reflexivity.
Defined.

(** A group whose parent id matches no group of the list gets the path of a
    top-level group: its own name alone. *)
Theorem groupPath_unmatched_parent depth gid groups g p :
  find_group gid groups = Some g ->
  parentGroupId g = Some p ->
  find_group p groups = None ->
  groupPath (S (S depth)) gid groups = Ok [groupName g].
Proof.
  intros F P Fp. cbn [groupPath]. now rewrite F, P, Fp.
Qed.

Lemma groupPath_unmatched_parent_witness :
  groupPath 2 "grp_9" [Scenario.acme; Scenario.shop] = Ok ["Shop 1-5C13O2"].
Proof.
  apply (groupPath_unmatched_parent 0 "grp_9" _ Scenario.shop "grp_404");
    reflexivity.
Defined.

(** [listAccountGroups] keeps the groups in the order of the answer, and
    stores in each the results of [rootContract] and [groupPath] for it. *)
Theorem listAccountGroups_resolved depth api ags :
  listAccountGroups depth api = Ok ags ->
  map group ags = papi_groups api /\
  Forall (fun a =>
            rootContract depth (group a) (papi_groups api) = Ok (rootContractId a) /\
            groupPath depth (groupId (group a)) (papi_groups api) = Ok (path a))
    ags.
Proof.
  unfold listAccountGroups. generalize (papi_groups api) at 1 3 as todo.
  intros todo. revert ags.
  induction todo as [|g rest IH]; intros ags H; cbn [resolveGroups] in H.
  - injection H as <-. split; [reflexivity | constructor].
  - destruct (rootContract depth g (papi_groups api)) as [c|] eqn:C; [|discriminate].
    destruct (groupPath depth (groupId g) (papi_groups api)) as [p|] eqn:G;
      [|discriminate].
    cbn [Py.bind] in H.
    destruct (resolveGroups depth rest (papi_groups api)) as [resolved|] eqn:R;
      [|discriminate].
    injection H as <-. destruct (IH _ eq_refl) as [M F].
    split; [cbn; now rewrite M|]. constructor; [now split | exact F].
Qed.

Lemma listAccountGroups_resolved_witness :
  exists ags,
    listAccountGroups 5 Scenario.example = Ok ags /\
    map group ags = papi_groups Scenario.example /\
    Forall (fun a =>
              rootContract 5 (group a) (papi_groups Scenario.example)
              = Ok (rootContractId a) /\
              groupPath 5 (groupId (group a)) (papi_groups Scenario.example)
              = Ok (path a))
      ags.
Proof.
  eexists. split; [reflexivity|].
  apply (listAccountGroups_resolved 5 Scenario.example). reflexivity.
Defined.

End HierarchyMore.

(* ------------------------------------------------------------------ *)
(** ** The maps of the cross-reference *)

Section MapsMore.

Lemma dict_get_set {V} e k (v : V) m :
  Dict.get Z.eqb e (Dict.set Z.eqb k v m)
  = if Z.eqb e k then Some v else Dict.get Z.eqb e m.
Proof.
  induction m as [|[k' v'] m IH]; cbn [Dict.get Dict.set].
  - reflexivity.
  - destruct (Z.eqb_spec k k') as [-> | Hk]; cbn [Dict.get].
    + now destruct (Z.eqb e k').
    + destruct (Z.eqb_spec e k') as [-> | He].
      * destruct (Z.eqb_spec k' k); [congruence | reflexivity].
      * exact IH.
Qed.

Lemma append_at_entries {V} k (x : V) m e :
  entries (append_at Z.eqb k x m) e
  = (entries m e ++ if Z.eqb e k then [x] else [])%list.
Proof.
  unfold entries, append_at.
  destruct (Dict.get Z.eqb k m) as [l|] eqn:G; rewrite dict_get_set;
    destruct (Z.eqb_spec e k) as [-> | Hne];
    rewrite ?G, ?List.app_nil_r; reflexivity.
Qed.

Lemma append_at_no_empty {V} k (x : V) m :
  no_empty m -> no_empty (append_at Z.eqb k x m).
Proof.
  unfold no_empty, append_at. intros H e.
  destruct (Dict.get Z.eqb k m) as [l|]; rewrite dict_get_set;
    destruct (Z.eqb e k); auto; try discriminate.
  intros [= E]. now apply app_eq_nil in E as [_ E].
Qed.

Lemma entries_get {V} (m : Dict.t (K := Z) (V := list V)) e :
  no_empty m ->
  Dict.get Z.eqb e m = match entries m e with [] => None | l => Some l end.
Proof.
  unfold entries. intros H. specialize (H e).
  destruct (Dict.get Z.eqb e m) as [[|x l]|]; congruence.
Qed.

Lemma contract_fold (rg : RepGroup) contract : forall m e,
  let m' := fold_left (fun acc c => append_at Z.eqb c rg acc) contract m in
  (no_empty m -> no_empty m') /\
  entries m' e = (entries m e ++ repeat rg (count_occ Z.eq_dec contract e))%list.
Proof.
  induction contract as [|c l IH]; intros m e; cbn [fold_left].
  - split; [auto | now rewrite List.app_nil_r].
  - destruct (IH (append_at Z.eqb c rg m) e) as [N E]. split.
    + intros H. now apply N, append_at_no_empty.
    + rewrite E, append_at_entries, <- List.app_assoc. f_equal.
      cbn [count_occ].
      destruct (Z.eq_dec c e) as [-> | Hne].
      * now rewrite Z.eqb_refl.
      * destruct (Z.eqb_spec e c); [congruence | reflexivity].
Qed.

Lemma group_fold (rg : RepGroup) contracts : forall m e,
  let m' := fold_left
              (fun acc contract =>
                 fold_left (fun acc c => append_at Z.eqb c rg acc) contract acc)
              contracts m in
  (no_empty m -> no_empty m') /\
  entries m' e
  = (entries m e ++ repeat rg (count_occ Z.eq_dec (List.concat contracts) e))%list.
Proof.
  induction contracts as [|ct l IH]; intros m e; cbn [fold_left List.concat].
  - split; [auto | now rewrite List.app_nil_r].
  - destruct (contract_fold rg ct m e) as [N1 E1].
    destruct (IH (fold_left (fun acc c => append_at Z.eqb c rg acc) ct m) e)
      as [N2 E2].
    split; [auto|].
    rewrite E2, E1, <- List.app_assoc, count_occ_app, repeat_app. reflexivity.
Qed.

Lemma groups_fold rgs : forall m e,
  let m' := fold_left
              (fun acc rg =>
                 fold_left
                   (fun acc contract =>
                      fold_left (fun acc c => append_at Z.eqb c rg acc) contract acc)
                   (rg_contracts rg) acc)
              rgs m in
  (no_empty m -> no_empty m') /\
  entries m' e = (entries m e ++ claimed_by e rgs)%list.
Proof.
  induction rgs as [|rg l IH]; intros m e; cbn [fold_left].
  - split; [auto | unfold claimed_by; cbn; now rewrite List.app_nil_r].
  - destruct (group_fold rg (rg_contracts rg) m e) as [N1 E1].
    destruct (IH (fold_left
                    (fun acc contract =>
                       fold_left (fun acc c => append_at Z.eqb c rg acc)
                         contract acc)
                    (rg_contracts rg) m) e) as [N2 E2].
    split; [auto|].
    rewrite E2, E1, <- List.app_assoc. reflexivity.
Qed.

(** [createMapCpcodeRepGroup] has a key for exactly the CP codes that some
    reporting group lists; the value is the list of the groups that list
    it, in the order of the answer, a group appearing once for every time
    it lists the CP code. *)
Theorem createMapCpcodeRepGroup_lookup api e :
  Dict.get Z.eqb e (createMapCpcodeRepGroup api)
  = match claimed_by e (cprg_reporting_groups api) with
    | [] => None
    | l => Some l
    end.
Proof.
  unfold createMapCpcodeRepGroup.
  destruct (groups_fold (cprg_reporting_groups api) [] e) as [N E].
  rewrite entries_get by (apply N; intros e'; discriminate).
  now rewrite E.
Qed.

Lemma find_snoc {A} (f : A -> bool) l a :
  find f (l ++ [a])
  = match find f l with
    | Some x => Some x
    | None => if f a then Some a else None
    end.
Proof.
  induction l as [|b l IH]; cbn [app find]; [reflexivity|].
  destruct (f b); [reflexivity | exact IH].
Qed.

(** When the catalog lists a CP code id more than once, the last entry is
    the one [cpcodeMap] holds. *)
Theorem cpcodesIndex_last_wins cpcodes e :
  Dict.get Z.eqb e (cpcodesIndex cpcodes)
  = find (fun c => Z.eqb (cpcodeId c) e) (rev cpcodes).
Proof.
  unfold cpcodesIndex.
  assert (G : forall m,
            Dict.get Z.eqb e
              (fold_left (fun m c => Dict.set Z.eqb (cpcodeId c) c m) cpcodes m)
            = match find (fun c => Z.eqb (cpcodeId c) e) (rev cpcodes) with
              | Some c => Some c
              | None => Dict.get Z.eqb e m
              end).
  { induction cpcodes as [|c l IH]; intros m; cbn [fold_left rev find];
      [reflexivity|].
    rewrite IH, find_snoc, dict_get_set.
    destruct (find (fun c0 => Z.eqb (cpcodeId c0) e) (rev l)); [reflexivity|].
    rewrite (Z.eqb_sym e). now destruct (Z.eqb (cpcodeId c) e). }
  rewrite G. now destruct (find _ (rev cpcodes)).
Qed.

End MapsMore.

(* ------------------------------------------------------------------ *)
(** ** Reading the usage *)

Section UsageMore.

Lemma scanStats_snoc ss s :
  scanStats (ss ++ [s])
  = let '(gb, hits) := scanStats ss in
    if String.eqb (statType s) "Bytes" then (Some (value s), hits)
    else if String.eqb (statType s) "Hits" then (gb, Some (value s))
    else (gb, hits).
Proof.
  unfold scanStats. rewrite fold_left_app. cbn [fold_left].
  now destruct (fold_left _ ss (None, None)).
Qed.

(** Of the statistics of one CP code, the last "Bytes" value becomes [gb]
    and the last "Hits" value becomes [hits]; a type that does not occur
    leaves [None], and other types are ignored. *)
Theorem scanStats_last ss :
  scanStats ss
  = (option_map value (find (fun s => String.eqb (statType s) "Bytes") (rev ss)),
     option_map value (find (fun s => String.eqb (statType s) "Hits") (rev ss))).
Proof.
  induction ss as [|s ss IH] using rev_ind; [reflexivity|].
  rewrite scanStats_snoc, IH, rev_app_distr. cbn [rev app find].
  destruct (String.eqb_spec (statType s) "Bytes") as [E | _].
  - rewrite E. reflexivity.
  - now destruct (String.eqb (statType s) "Hits").
Qed.

(** The statistics of a contract are read for the window from [month] to
    the month after it; there is one statistic per CP-code entry of the
    answer, period after period in the order of the answer, and none when
    the answer has no content. *)
Theorem getCpStatistics_cpcodes api contract product month cpstats :
  getCpStatistics api contract product month = Ok cpstats ->
  exists end_,
    month_add month 1 = Ok end_ /\
    map st_cpcode cpstats
    = match billing_usage api contract product month end_ with
      | Some usagePeriods =>
          flat_map (fun u => map cpCode (cpCodeStats u)) usagePeriods
      | None => []
      end.
Proof.
  unfold getCpStatistics, getUsageByCpCode.
  destruct (month_add month 1) as [end_|]; [|discriminate].
  cbn [Py.bind]. intros H. exists end_. split; [reflexivity|].
  destruct (billing_usage api contract product month end_) as [periods|];
    injection H as <-; [|reflexivity].
  induction periods as [|u l IH]; [reflexivity|].
  cbn [flat_map]. rewrite map_app, IH. f_equal.
  rewrite map_map. apply map_ext. intros stat.
  now destruct (scanStats (stats stat)).
Qed.

Lemma getCpStatistics_cpcodes_witness :
  exists end_,
    month_add "2024-03" 1 = Ok end_ /\
    map st_cpcode
      [ {| st_cpcode := 100; st_hits := Some 500000%Q; st_gb := Some 12.5%Q |} ]
    = match billing_usage Scenario.example "1" "X" "2024-03" end_ with
      | Some usagePeriods =>
          flat_map (fun u => map cpCode (cpCodeStats u)) usagePeriods
      | None => []
      end.
Proof.
  apply (getCpStatistics_cpcodes Scenario.example "1" "X" "2024-03").
  reflexivity.
Defined.

Lemma contractsIndex_nonempty items : forall cm var,
  items <> [] \/ cm <> [] -> fst (contractsIndex items cm var) <> [].
Proof.
  induction items as [|c l IH]; intros cm var H; cbn [contractsIndex].
  - destruct H as [H | H]; [congruence | exact H].
  - apply IH. right. destruct cm as [|[k v] cm]; cbn [Dict.set]; [discriminate|].
    destruct (String.eqb (contractId c) k); discriminate.
Qed.

Lemma buildMaps_contractMap depth api m var :
  buildMaps depth api = Ok (m, var) ->
  contractMap m = fst (contractsIndex (papi_contracts api) [] Unbound).
Proof.
  unfold buildMaps.
  destruct (contractsIndex (papi_contracts api) [] Unbound) as [cm v0].
  destruct (listAccountGroups depth api) as [ags|]; [|discriminate].
  cbn [Py.bind].
  destruct (groupsLoop api ags [] [] v0) as [[[gm acc] v1]|]; [|discriminate].
  cbn [Py.bind]. now intros [= <- _].
Qed.

(** With at least one contract, a month that [month_add] rejects makes the
    whole report fail with the error of [month_add], whatever the usage. *)
Theorem report_rejects_month depth api product month inc m var e :
  buildMaps depth api = Ok (m, var) ->
  papi_contracts api <> [] ->
  month_add month 1 = Err e ->
  cptrafficPerMonth depth api product month inc = Err e.
Proof.
  intros B C M. unfold cptrafficPerMonth, usagePhase. rewrite B. cbn [Py.bind].
  pose proof (contractsIndex_nonempty (papi_contracts api) [] Unbound (or_introl C))
    as K.
  rewrite <- (buildMaps_contractMap _ _ _ _ B) in K.
  unfold Dict.keys. destruct (contractMap m) as [|[k c] rest]; [congruence|].
  cbn [map fst usageLoop].
  unfold getCpStatistics, getUsageByCpCode. now rewrite M.
Qed.

Lemma report_rejects_month_witness :
  cptrafficPerMonth 10 Scenario.example "X" "March 2024" false = Err ValueError.
Proof.
  eapply (report_rejects_month 10 Scenario.example "X" "March 2024" false);
    [vm_compute; reflexivity | discriminate | reflexivity].
Defined.

End UsageMore.

(* ------------------------------------------------------------------ *)
(** ** What the maps guarantee to the report *)

Section MapsInvariant.

Lemma mem_set {V} k g (v : V) gm :
  Dict.mem Z.eqb k (Dict.set Z.eqb g v gm) = Z.eqb k g || Dict.mem Z.eqb k gm.
Proof. unfold Dict.mem. rewrite dict_get_set. now destruct (Z.eqb k g). Qed.

Lemma memberships_known_set gm acc g v :
  memberships_known gm acc -> memberships_known (Dict.set Z.eqb g v gm) acc.
Proof.
  intros H e gids G. destruct (H e gids G) as [Hn Hm]. split; [exact Hn|].
  intros gid Hin. rewrite mem_set, (Hm gid Hin). apply orb_true_r.
Qed.

Lemma memberships_known_append gm acc id gid :
  Dict.mem Z.eqb gid gm = true ->
  memberships_known gm acc -> memberships_known gm (append_at Z.eqb id gid acc).
Proof.
  intros Hg H e gids. unfold append_at.
  destruct (Dict.get Z.eqb id acc) as [l|] eqn:G; rewrite dict_get_set;
    destruct (Z.eqb_spec e id) as [-> | Hne]; try apply H.
  - intros [= <-]. destruct (H id l G) as [_ Hm]. split.
    + intros E. now apply app_eq_nil in E as [_ E].
    + intros x Hin. apply in_app_or in Hin as [Hin | [<- | []]]; auto.
  - intros [= <-]. split; [discriminate|]. intros x [<- | []]. exact Hg.
Qed.

Lemma groupCpcodesLoop_known gm gid cps : forall acc var acc' var',
  groupCpcodesLoop gid cps acc var = Ok (acc', var') ->
  Dict.mem Z.eqb gid gm = true ->
  memberships_known gm acc -> memberships_known gm acc'.
Proof.
  induction cps as [|cpi rest IH]; intros acc var acc' var' H Hg K;
    cbn [groupCpcodesLoop] in H.
  - now injection H as <- <-.
  - destruct (Py.int cpi) as [id|]; [|discriminate]. cbn [Py.bind] in H.
    eapply IH; [exact H | exact Hg |]. now apply memberships_known_append.
Qed.

Lemma groupsLoop_known api ags : forall gm acc var gm' acc' var',
  groupsLoop api ags gm acc var = Ok (gm', acc', var') ->
  memberships_known gm acc ->
  memberships_known gm' acc' /\
  Forall (fun a =>
            rootContractId a <> None /\
            exists z, Py.int (Py.replace (groupId (group a)) "grp_" "") = Ok z)
    ags.
Proof.
  induction ags as [|grp rest IH]; intros gm acc var gm' acc' var' H K;
    cbn [groupsLoop] in H.
  - injection H as <- <- <-. split; [exact K | constructor].
  - destruct (Py.int (Py.replace (groupId (group grp)) "grp_" "")) as [gid|] eqn:I;
      [|discriminate].
    cbn [Py.bind] in H.
    destruct (rootContractId grp) as [c|] eqn:R; [|discriminate].
    destruct (groupCpcodesLoop gid _ acc var) as [[acc1 var1]|] eqn:L;
      [|discriminate].
    cbn [Py.bind] in H.
    assert (K1 : memberships_known (Dict.set Z.eqb gid grp gm) acc1).
    { eapply groupCpcodesLoop_known; [exact L | |].
      - rewrite mem_set, Z.eqb_refl. reflexivity.
      - now apply memberships_known_set. }
    destruct (IH _ _ _ _ _ _ H K1) as [K2 F]. split; [exact K2|].
    constructor; [|exact F]. split; [rewrite R; discriminate | now exists gid].
Qed.

Lemma buildMaps_known depth api m var :
  buildMaps depth api = Ok (m, var) ->
  memberships_known (groupmap m) (mapCpcodeAccgroup m) /\
  mapCpcodeRepgroup m = createMapCpcodeRepGroup api /\
  exists ags,
    listAccountGroups depth api = Ok ags /\
    Forall (fun a =>
              rootContractId a <> None /\
              exists z, Py.int (Py.replace (groupId (group a)) "grp_" "") = Ok z)
      ags.
Proof.
  unfold buildMaps.
  destruct (contractsIndex (papi_contracts api) [] Unbound) as [cm v0].
  destruct (listAccountGroups depth api) as [ags|]; [|discriminate].
  cbn [Py.bind].
  destruct (groupsLoop api ags [] [] v0) as [[[gm acc] v1]|] eqn:L; [|discriminate].
  cbn [Py.bind]. intros [= <- _]. cbn.
  destruct (groupsLoop_known _ _ _ _ _ _ _ _ L) as [K F].
  { intros e gids G. discriminate G. }
  split; [exact K|]. split; [reflexivity|]. now exists ags.
Qed.

Lemma firstLevelLoop_total gm gids : forall acc,
  (forall gid, In gid gids -> Dict.mem Z.eqb gid gm = true) ->
  exists names, firstLevelLoop gm gids acc = Ok names.
Proof.
  induction gids as [|gid rest IH]; intros acc H; cbn [firstLevelLoop].
  - now exists acc.
  - pose proof (H gid (or_introl eq_refl)) as M. unfold Dict.mem in M.
    unfold Dict.getitem. destruct (Dict.get Z.eqb gid gm) as [g|]; [|discriminate].
    cbn [Py.bind].
    destruct (List.length (path g) =? 2)%nat eqn:L.
    + destruct (path g) as [|a [|b [|c l]]]; try discriminate L.
      cbn [nth_error]. apply IH. intros. apply H. now right.
    + apply IH. intros. apply H. now right.
Qed.

(** After the maps are built, the group ids filed under a CP code are all
    keys of [groupmap] and there is at least one: the loop that fills
    [groupPath] cannot raise. *)
Theorem memberships_resolve depth api m var e gids :
  buildMaps depth api = Ok (m, var) ->
  Dict.get Z.eqb e (mapCpcodeAccgroup m) = Some gids ->
  gids <> [] /\
  (forall gid, In gid gids -> Dict.mem Z.eqb gid (groupmap m) = true) /\
  exists names, firstLevelLoop (groupmap m) gids [] = Ok names.
Proof.
  intros B G. destruct (buildMaps_known _ _ _ _ B) as (K & _).
  destruct (K e gids G) as [Hn Hm]. repeat split; auto.
  now apply firstLevelLoop_total.
Qed.

Lemma memberships_resolve_witness :
  exists m var,
    buildMaps 10 Scenario.example = Ok (m, var) /\
    [2] <> [] /\
    (forall gid, In gid [2] -> Dict.mem Z.eqb gid (groupmap m) = true) /\
    exists names, firstLevelLoop (groupmap m) [2] [] = Ok names.
Proof.
  eexists _, _. split; [vm_compute; reflexivity|].
  eapply (memberships_resolve 10 Scenario.example _ _ 100 [2]);
    vm_compute; reflexivity.
Defined.

(** The row of a usage statistic is written exactly when the CP code of the
    statistic is in the catalog and is filed under some group; nothing else
    can stop it. *)
Theorem usageRow_written_iff depth api m var st :
  buildMaps depth api = Ok (m, var) ->
  ((exists row, usageRow m st = Ok row) <->
   Dict.mem Z.eqb (st_cpcode st) (cpcodeMap m) = true /\
   Dict.mem Z.eqb (st_cpcode st) (mapCpcodeAccgroup m) = true).
Proof.
  intros B. destruct (buildMaps_known _ _ _ _ B) as (K & _).
  unfold usageRow, Dict.getitem, Dict.mem.
  destruct (Dict.get Z.eqb (st_cpcode st) (cpcodeMap m)) as [cp|].
  2:{ split; [intros [row H]; discriminate H | intros [H _]; discriminate H]. }
  destruct (Dict.get Z.eqb (st_cpcode st) (mapCpcodeAccgroup m)) as [gids|] eqn:G.
  2:{ split; [intros [row H]; discriminate H | intros [_ H]; discriminate H]. }
  cbn [Py.bind]. split; [auto|]. intros _.
  destruct (K _ _ G) as [_ Hm].
  destruct (firstLevelLoop_total (groupmap m) gids [] Hm) as [names ->].
  cbn [Py.bind]. eauto.
Qed.

Lemma usageRow_written_iff_witness :
  exists m var,
    buildMaps 10 Scenario.orphan = Ok (m, var) /\
    ((exists row,
        usageRow m {| st_cpcode := 100; st_hits := Some 5%Q; st_gb := Some 1%Q |}
        = Ok row) <->
     Dict.mem Z.eqb 100 (cpcodeMap m) = true /\
     Dict.mem Z.eqb 100 (mapCpcodeAccgroup m) = true).
Proof.
  eexists _, _. split; [vm_compute; reflexivity|].
  eapply (usageRow_written_iff 10 Scenario.orphan). vm_compute. reflexivity.
Defined.

Lemma groupsLoop_no_root api ags : forall gm acc var,
  Exists (fun a => rootContractId a = None) ags ->
  groupsLoop api ags gm acc var = Err AttributeError \/
  groupsLoop api ags gm acc var = Err ValueError.
Proof.
  induction ags as [|grp rest IH]; intros gm acc var E; [inversion E|].
  cbn [groupsLoop].
  destruct (Py.int (Py.replace (groupId (group grp)) "grp_" "")) as [gid|e] eqn:I.
  2:{ right. unfold Py.int in I.
      destruct (match Py.rstrip (Py.lstrip _) with
                | EmptyString => None | String _ _ => _ end);
        [discriminate | now injection I as <-]. }
  cbn [Py.bind].
  destruct (rootContractId grp) as [c|] eqn:R; [|now left].
  inversion_clear E as [? ? H | ? ? H]; [congruence|].
  assert (V : forall cps a v,
            (exists r, groupCpcodesLoop gid cps a v = Ok r) \/
            groupCpcodesLoop gid cps a v = Err ValueError).
  { induction cps as [|cpi l IHl]; intros a v; cbn [groupCpcodesLoop];
      [left; eauto|].
    destruct (Py.int cpi) as [id|e] eqn:Ic; cbn [Py.bind]; [apply IHl|].
    right. unfold Py.int in Ic.
    destruct (match Py.rstrip (Py.lstrip cpi) with
              | EmptyString => None | String _ _ => _ end);
      [discriminate | now injection Ic as <-]. }
  destruct (V (papi_cpcodes api (Py.replace c "ctr_" "") (groupId (group grp)))
              acc var) as [[[a v] ->] | ->]; cbn [Py.bind]; [|now right].
  now apply IH.
Qed.

(** A group for which [rootContract] found no contract stops the report:
    the group loop calls [replace] on [None]. (A group id or CP code id
    that does not read as an integer stops it earlier.) *)
Theorem group_without_contract_stops_report depth api ags product month inc :
  listAccountGroups depth api = Ok ags ->
  Exists (fun a => rootContractId a = None) ags ->
  cptrafficPerMonth depth api product month inc = Err AttributeError \/
  cptrafficPerMonth depth api product month inc = Err ValueError.
Proof.
  intros L E. unfold cptrafficPerMonth, buildMaps.
  destruct (contractsIndex (papi_contracts api) [] Unbound) as [cm v0].
  rewrite L. cbn [Py.bind].
  destruct (groupsLoop_no_root api ags [] [] v0 E) as [-> | ->]; auto.
Qed.

Lemma group_without_contract_stops_report_witness :
  cptrafficPerMonth 10 Scenario.lab_only "X" "2024-03" false = Err AttributeError \/
  cptrafficPerMonth 10 Scenario.lab_only "X" "2024-03" false = Err ValueError.
Proof.
  apply (group_without_contract_stops_report 10 Scenario.lab_only
           [ {| group := Scenario.lab; rootContractId := None; path := ["Lab"] |} ]);
    [reflexivity | now constructor].
Defined.

End MapsInvariant.

(* ------------------------------------------------------------------ *)
(** ** More on the rows of the report *)

Section ReportMore.

(** What [includeNoTraffic] changes: the report with the flag set is the
    beginning of the report without it. The rows they share are those of
    the usage, with statistics; the rows only the report without the flag
    has are those without statistics. *)
Theorem flag_drops_plain_rows depth api product month with_flag without_flag :
  cptrafficPerMonth depth api product month true = Ok with_flag ->
  cptrafficPerMonth depth api product month false = Ok without_flag ->
  exists extra,
    without_flag = (with_flag ++ extra)%list /\
    Forall (fun r => with_stats r = true) with_flag /\
    Forall (fun r => with_stats r = false) extra.
Proof.
  intros H1 H2.
  destruct (run_rows _ _ _ _ _ _ H1)
    as (m & var & rows & added & feed & extra1 & B & U & F & R & -> & X1).
  destruct (run_rows _ _ _ _ _ _ H2)
    as (m' & var' & rows' & added' & feed' & extra & B' & U' & F' & R' & -> & X).
  rewrite B in B'. injection B' as <- <-.
  rewrite U in U'. injection U' as <- <-.
  inversion X1; subst. rewrite List.app_nil_r.
  exists extra. split; [reflexivity|]. split.
  - clear -R. induction R as [|st row l r Hr R IH]; constructor; auto.
    apply usageRow_inv in Hr as (_ & Hh & _). unfold with_stats. now rewrite Hh.
  - clear -X. induction X as [|it row l r Hr X IH]; constructor; auto.
    apply noTrafficRow_some in Hr as (_ & _ & Hh & _).
    unfold with_stats. now rewrite Hh.
Qed.

Lemma flag_drops_plain_rows_witness :
  exists extra,
    [ Scenario.site_a_row 5 1;
      {| row_contract := "1"; row_cpcode := 200; row_name := "Site-B";
         row_groupPath := ["Team"]; row_repGroups := [];
         row_hits := Present (Some 7%Q); row_gb := Present (Some 2%Q) |};
      {| row_contract := "1"; row_cpcode := 100; row_name := "Site-A";
         row_groupPath := ["Team"]; row_repGroups := [];
         row_hits := Missing; row_gb := Missing |} ]
    = ([ Scenario.site_a_row 5 1;
         {| row_contract := "1"; row_cpcode := 200; row_name := "Site-B";
            row_groupPath := ["Team"]; row_repGroups := [];
            row_hits := Present (Some 7%Q); row_gb := Present (Some 2%Q) |} ]
       ++ extra)%list /\
    Forall (fun r => with_stats r = true)
      [ Scenario.site_a_row 5 1;
        {| row_contract := "1"; row_cpcode := 200; row_name := "Site-B";
           row_groupPath := ["Team"]; row_repGroups := [];
           row_hits := Present (Some 7%Q); row_gb := Present (Some 2%Q) |} ] /\
    Forall (fun r => with_stats r = false) extra.
Proof.
  apply (flag_drops_plain_rows 10 Scenario.busy "X" "2024-03");
    vm_compute; reflexivity.
Defined.

Lemma usageRow_name m st row :
  usageRow m st = Ok row ->
  exists cp, Dict.get Z.eqb (row_cpcode row) (cpcodeMap m) = Some cp /\
             row_name row = cpcodeName cp.
Proof.
  unfold usageRow, Dict.getitem. intros H.
  destruct (Dict.get Z.eqb (st_cpcode st) (cpcodeMap m)) as [cp|] eqn:C;
    [|discriminate].
  destruct (Dict.get Z.eqb (st_cpcode st) (mapCpcodeAccgroup m)); [|discriminate].
  cbn [Py.bind] in H.
  destruct (firstLevelLoop (groupmap m) _ []); [|discriminate].
  injection H as <-. cbn. now exists cp.
Qed.

Lemma noTrafficRow_name m id cp row :
  noTrafficRow m id cp = Ok (Some row) -> row_name row = cpcodeName cp.
Proof.
  unfold noTrafficRow, Dict.getitem. intros H.
  destruct (validContract cp); [|discriminate].
  destruct (validProduct cp); [|discriminate].
  cbn [negb] in H.
  destruct (Dict.get Z.eqb id (mapCpcodeAccgroup m)); [|discriminate].
  cbn [Py.bind] in H.
  destruct (firstLevelLoop (groupmap m) _ []); [|discriminate].
  now injection H as <-.
Qed.

(** Every row of the report carries the name the catalog gives for its CP
    code, and as reporting groups the names of the groups that list the
    CP code, once for every time a group lists it; the list is empty for a
    CP code that no reporting group lists. *)
Theorem row_name_and_repGroups depth api product month inc traffic :
  cptrafficPerMonth depth api product month inc = Ok traffic ->
  exists m var,
    buildMaps depth api = Ok (m, var) /\
    Forall (fun row =>
              (exists cp,
                 Dict.get Z.eqb (row_cpcode row) (cpcodeMap m) = Some cp /\
                 row_name row = cpcodeName cp) /\
              row_repGroups row
              = map reportingGroupName
                  (claimed_by (row_cpcode row) (cprg_reporting_groups api)))
      traffic.
Proof.
  intros H.
  destruct (run_rows _ _ _ _ _ _ H)
    as (m & var & rows & added & feed & extra & B & U & F & R & -> & X).
  exists m, var. split; [exact B|].
  destruct (buildMaps_known _ _ _ _ B) as (_ & RG & _).
  assert (Names : forall e,
            repgroupnames m e
            = map reportingGroupName (claimed_by e (cprg_reporting_groups api))).
  { intros e. unfold repgroupnames. rewrite RG. unfold createMapCpcodeRepGroup.
    destruct (groups_fold (cprg_reporting_groups api) [] e) as [N E].
    rewrite entries_get by (apply N; intros e'; discriminate).
    rewrite E. cbn [entries Dict.get app].
    now destruct (claimed_by e (cprg_reporting_groups api)). }
  assert (N : NoDup (map fst (cpcodeMap m))).
  { rewrite (buildMaps_cpcodeMap _ _ _ _ B). apply cpcodesIndex_nodup. }
  apply Forall_app. split.
  - clear -R Names. induction R as [|st row l r Hr R IH]; constructor; auto.
    split; [now apply (usageRow_name m (snd st))|].
    apply usageRow_inv in Hr as (-> & _ & _ & -> & _). apply Names.
  - assert (In_items : forall it, In it (if inc then [] else
                         filter (pending added) (cpcodeMap m)) ->
                       In it (cpcodeMap m)).
    { intros it Hin. destruct inc; [destruct Hin|].
      now apply filter_In in Hin as [Hin _]. }
    clear -X Names N In_items.
    induction X as [|[id cp] row l r Hr X IH]; constructor.
    + cbn [fst snd] in Hr. split.
      * exists cp. pose proof (noTrafficRow_name _ _ _ _ Hr) as Hn.
        apply noTrafficRow_some in Hr as (-> & _). split; [|exact Hn].
        apply (dict_in_get Z.eqb Z.eqb_eq); [exact N|].
        apply In_items. now left.
      * apply noTrafficRow_some in Hr as (-> & _ & _ & _ & -> & _). apply Names.
    + apply IH. intros it Hin. apply In_items. now right.
Qed.

Lemma row_name_and_repGroups_witness :
  exists m var,
    buildMaps 10 Scenario.example = Ok (m, var) /\
    Forall (fun row =>
              (exists cp,
                 Dict.get Z.eqb (row_cpcode row) (cpcodeMap m) = Some cp /\
                 row_name row = cpcodeName cp) /\
              row_repGroups row
              = map reportingGroupName
                  (claimed_by (row_cpcode row)
                     (cprg_reporting_groups Scenario.example)))
      [ {| row_contract := "1"; row_cpcode := 100; row_name := "Site-A";
           row_groupPath := ["Team"]; row_repGroups := ["RG1"; "RG2"];
           row_hits := Present (Some 500000%Q);
           row_gb := Present (Some 12.5%Q) |} ].
Proof.
  apply (row_name_and_repGroups 10 Scenario.example "X" "2024-03" false).
  vm_compute. reflexivity.
Defined.

End ReportMore.

(* ------------------------------------------------------------------ *)
(** ** More on the summary *)

Section SummaryMore.

Open Scope Q_scope.

Lemma sget_set k key (b : Bucket) s :
  Dict.get String.eqb k (Dict.set String.eqb key b s)
  = if String.eqb k key then Some b else Dict.get String.eqb k s.
Proof.
  induction s as [|[k' v'] s IH]; cbn [Dict.get Dict.set]; [reflexivity|].
  destruct (String.eqb_spec key k') as [-> | Hk]; cbn [Dict.get].
  - now destruct (String.eqb k k').
  - destruct (String.eqb_spec k k') as [-> | He].
    + destruct (String.eqb_spec k' key); [congruence | reflexivity].
    + exact IH.
Qed.

Lemma touch_get key s k :
  exists b, Dict.get String.eqb key (touch key s) = Some b /\
            hits b = hits_of s key /\ gb b = gb_of s key /\
            hits_of (touch key s) k = hits_of s k /\
            gb_of (touch key s) k = gb_of s k.
Proof.
  unfold touch, Dict.mem, hits_of, gb_of.
  destruct (Dict.get String.eqb key s) as [b|] eqn:G.
  - exists b. rewrite G. auto.
  - rewrite !sget_set, String.eqb_refl. eexists; split; [reflexivity|].
    cbn [hits gb]. repeat split.
    + destruct (String.eqb_spec k key) as [-> | _]; [now rewrite G | reflexivity].
    + destruct (String.eqb_spec k key) as [-> | _]; [now rewrite G | reflexivity].
Qed.






Lemma whole_summable f : whole f -> summable f = true.
Proof. destruct f as [|[q|]]; cbn; tauto. Qed.

(** For rows whose hit counts are integers or absent keys (and whose byte
    volumes can be added), the summary produces its table, and the hits of
    all its buckets together, named groups, [#None] and [#Multiple], are
    the sum of the hit counts of the rows, each row counted once. *)
Theorem summary_hits_identity rows :
  Forall (fun r => whole (row_hits r) /\ summable (row_gb r) = true) rows ->
  exists s',
    sumRepGroups rows [] = Ok s' /\
    total hits s' == rows_total row_hits rows.
Proof.
  intros F.
  destruct (summary_identity rows []) as (s' & E & H & _).
  { eapply Forall_impl; [|exact F]. intros r [W G].
    split; [now apply whole_summable | exact G]. }
  exists s'. split; [exact E|]. rewrite H. unfold total. cbn. ring.
Qed.

Lemma summary_hits_identity_witness :
  exists s',
    sumRepGroups [Scenario.example_row; Scenario.site_a_row 5 1] [] = Ok s' /\
    total hits s'
    == rows_total row_hits [Scenario.example_row; Scenario.site_a_row 5 1].
Proof.
  apply (summary_hits_identity [Scenario.example_row; Scenario.site_a_row 5 1]).
  repeat constructor; cbn.
  - now exists 500000%Z.
  - now exists 5%Z.
Defined.

Lemma sumRow_unsummable row s :
  summable_row row = false -> sumRow row s = Err TypeError.
Proof.
  unfold summable_row. intros S.
  destruct (row_hits row) as [|[x|]] eqn:Hh;
    try (now apply sumRow_none).
  - destruct (row_gb row) as [|[y|]] eqn:Hg; try discriminate S.
    unfold sumRow. destruct (row_repGroups row) as [|rg rest].
    + cbn [creditAll Py.bind List.length Nat.eqb]. unfold credit, Dict.getitem.
      destruct (touch_get "#None" s "#None") as (b & G & _).
      now rewrite G, Hh, Hg.
    + cbn [creditAll]. unfold credit at 1. unfold Dict.getitem.
      destruct (touch_get rg s rg) as (b & G & _). now rewrite G, Hh, Hg.
  - destruct (row_gb row) as [|[y|]] eqn:Hg; try discriminate S.
    unfold sumRow. destruct (row_repGroups row) as [|rg rest].
    + cbn [creditAll Py.bind List.length Nat.eqb]. unfold credit, Dict.getitem.
      destruct (touch_get "#None" s "#None") as (b & G & _).
      now rewrite G, Hh, Hg.
    + cbn [creditAll]. unfold credit at 1. unfold Dict.getitem.
      destruct (touch_get rg s rg) as (b & G & _). now rewrite G, Hh, Hg.
Qed.

(** The summary reaches its table exactly when every row has statistics it
    can add (numbers, or keys that are absent); any other row stops it with
    [TypeError], and no other error occurs. *)
Theorem sumRepGroups_outcome rows : forall s,
  match sumRepGroups rows s with
  | Ok _ => forallb summable_row rows = true
  | Err e => e = TypeError /\ forallb summable_row rows = false
  end.
Proof.
  induction rows as [|row rest IH]; intros s; cbn [sumRepGroups forallb];
    [reflexivity|].
  destruct (summable_row row) eqn:S.
  - pose proof S as S'. unfold summable_row in S'.
    apply andb_true_iff in S' as [Sh Sg].
    destruct (sumRow_total row s Sh Sg) as (s1 & -> & _). cbn [Py.bind andb].
    apply IH.
  - rewrite (sumRow_unsummable row s S). cbn [Py.bind]. auto.
Qed.

End SummaryMore.

(* ------------------------------------------------------------------ *)
(** ** More on the maps and on the no-traffic branch *)

Section BranchesMore.

Lemma month_add_index_witness :
  exists m', month_add "2024-11" 3 = Ok m' /\
             month_index m' = month_index "2024-11" + 3.
Proof.
  apply (month_add_index "2024-11" 3); [reflexivity | vm_compute; discriminate].
Defined.

(** For a catalog entry the no-traffic branch first applies the two
    filters and only then looks up the groups: an entry that fails a filter
    is skipped even when it is filed under no group, an entry that passes
    gets its row when it is filed under a group, and the lookup raises
    [KeyError] when it is not. *)
Theorem noTrafficRow_outcome depth api m var id cp :
  buildMaps depth api = Ok (m, var) ->
  match noTrafficRow m id cp with
  | Ok (Some row) =>
      eligible cp = true /\ Dict.mem Z.eqb id (mapCpcodeAccgroup m) = true /\
      row_cpcode row = id /\ with_stats row = false
  | Ok None => eligible cp = false
  | Err e =>
      e = KeyError /\ eligible cp = true /\
      Dict.mem Z.eqb id (mapCpcodeAccgroup m) = false
  end.
Proof.
  intros B. destruct (buildMaps_known _ _ _ _ B) as (K & _).
  unfold noTrafficRow, eligible, Dict.getitem, Dict.mem.
  destruct (validContract cp); [|reflexivity].
  destruct (validProduct cp); [|reflexivity].
  cbn [negb andb].
  destruct (Dict.get Z.eqb id (mapCpcodeAccgroup m)) as [gids|] eqn:G;
    cbn [Py.bind]; [|auto].
  destruct (K _ _ G) as [_ Hm].
  destruct (firstLevelLoop_total (groupmap m) gids [] Hm) as [names ->].
  cbn [Py.bind]. auto.
Qed.

Lemma noTrafficRow_outcome_witness :
  exists m var,
    buildMaps 10 Scenario.orphan_quiet = Ok (m, var) /\
    match noTrafficRow m 100 Scenario.site_a with
    | Ok (Some row) =>
        eligible Scenario.site_a = true /\
        Dict.mem Z.eqb 100 (mapCpcodeAccgroup m) = true /\
        row_cpcode row = 100 /\ with_stats row = false
    | Ok None => eligible Scenario.site_a = false
    | Err e =>
        e = KeyError /\ eligible Scenario.site_a = true /\
        Dict.mem Z.eqb 100 (mapCpcodeAccgroup m) = false
    end.
Proof.
  eexists _, _. split; [vm_compute; reflexivity|].
  eapply (noTrafficRow_outcome 10 Scenario.orphan_quiet). vm_compute. reflexivity.
Defined.

Lemma keys_set_in {V} key (v : V) d k :
  In k (Dict.keys (Dict.set String.eqb key v d)) <-> k = key \/ In k (Dict.keys d).
Proof.
  unfold Dict.keys. induction d as [|[k' v'] d IH]; cbn [Dict.set map fst In].
  - split; [intros [<- | []]; auto | intros [-> | []]; auto].
  - destruct (String.eqb_spec key k') as [-> | Hne]; cbn [map fst In].
    + split; [tauto|]. intros [-> | H]; auto.
    + rewrite IH. tauto.
Qed.

Lemma contractsIndex_keys items : forall cm var,
  NoDup (Dict.keys cm) ->
  NoDup (Dict.keys (fst (contractsIndex items cm var))) /\
  forall k, In k (Dict.keys (fst (contractsIndex items cm var))) <->
            In k (Dict.keys cm) \/ In k (map contractId items).
Proof.
  induction items as [|c l IH]; intros cm var N; cbn [contractsIndex].
  - split; [exact N|]. intros k. cbn. tauto.
  - destruct (IH (Dict.set String.eqb (contractId c) c cm) (ContractItem c))
      as [N' I'].
    { now apply (dict_set_nodup String.eqb String.eqb_eq). }
    split; [exact N'|]. intros k. rewrite I', keys_set_in. cbn [map In].
    split; [intros [[-> | H] | H]; auto | intros [H | [<- | H]]; auto].
Qed.

(** The usage is read once for every distinct contract id of the contract
    list: the keys of [contractMap] are the contract ids, each once. *)
Theorem contractMap_keys depth api m var :
  buildMaps depth api = Ok (m, var) ->
  NoDup (Dict.keys (contractMap m)) /\
  forall k, In k (Dict.keys (contractMap m)) <->
            In k (map contractId (papi_contracts api)).
Proof.
  intros B. rewrite (buildMaps_contractMap _ _ _ _ B).
  destruct (contractsIndex_keys (papi_contracts api) [] Unbound) as [N I];
    [constructor|].
  split; [exact N|]. intros k. rewrite I. cbn. tauto.
Qed.

Lemma contractMap_keys_witness :
  exists m var,
    buildMaps 10 Scenario.two_contracts = Ok (m, var) /\
    NoDup (Dict.keys (contractMap m)) /\
    forall k, In k (Dict.keys (contractMap m)) <->
              In k (map contractId (papi_contracts Scenario.two_contracts)).
Proof.
  eexists _, _. split; [vm_compute; reflexivity|].
  eapply (contractMap_keys 10 Scenario.two_contracts). vm_compute. reflexivity.
Defined.

Lemma groupCpcodesLoop_entries gid cps e : forall acc var acc' var',
  groupCpcodesLoop gid cps acc var = Ok (acc', var') ->
  entries acc' e
  = (entries acc e
     ++ flat_map (fun cpi => match Py.int cpi with
                             | Ok id => if Z.eqb e id then [gid] else []
                             | Err _ => []
                             end) cps)%list.
Proof.
  induction cps as [|cpi rest IH]; intros acc var acc' var' H;
    cbn [groupCpcodesLoop flat_map] in *.
  - injection H as <- <-. now rewrite List.app_nil_r.
  - destruct (Py.int cpi) as [id|]; [|discriminate]. cbn [Py.bind] in H.
    rewrite (IH _ _ _ _ H), append_at_entries, <- List.app_assoc. reflexivity.
Qed.

Lemma groupsLoop_entries api ags e : forall gm acc var gm' acc' var',
  groupsLoop api ags gm acc var = Ok (gm', acc', var') ->
  entries acc' e = (entries acc e ++ filed_under api e ags)%list.
Proof.
  induction ags as [|grp rest IH]; intros gm acc var gm' acc' var' H;
    cbn [groupsLoop] in H.
  - injection H as <- <- <-. unfold filed_under. cbn.
    now rewrite List.app_nil_r.
  - unfold filed_under. cbn [flat_map]. fold (filed_under api e rest).
    destruct (Py.int (Py.replace (groupId (group grp)) "grp_" "")) as [gid|];
      [|discriminate].
    cbn [Py.bind] in H.
    destruct (rootContractId grp) as [c|]; [|discriminate].
    destruct (groupCpcodesLoop gid _ acc var) as [[acc1 var1]|] eqn:L;
      [|discriminate].
    cbn [Py.bind] in H.
    rewrite (IH _ _ _ _ _ _ H), (groupCpcodesLoop_entries _ _ e _ _ _ _ L).
    now rewrite <- List.app_assoc.
Qed.

(** After the maps are built, [mapCpcodeAccgroup] holds for a CP code the
    numeric ids of the groups whose CP-code listing contains it, in the
    order of the groups, a group once for every time its listing names the
    CP code; a CP code that no listing names has no key. *)
Theorem mapCpcodeAccgroup_lookup depth api m var e :
  buildMaps depth api = Ok (m, var) ->
  exists ags,
    listAccountGroups depth api = Ok ags /\
    Dict.get Z.eqb e (mapCpcodeAccgroup m)
    = match filed_under api e ags with
      | [] => None
      | gids => Some gids
      end.
Proof.
  intros B. destruct (buildMaps_known _ _ _ _ B) as (K & _).
  unfold buildMaps in B.
  destruct (contractsIndex (papi_contracts api) [] Unbound) as [cm v0].
  destruct (listAccountGroups depth api) as [ags|]; [|discriminate].
  cbn [Py.bind] in B.
  destruct (groupsLoop api ags [] [] v0) as [[[gm acc] v1]|] eqn:L; [|discriminate].
  cbn [Py.bind] in B. injection B as <- _. cbn [mapCpcodeAccgroup] in *.
  exists ags. split; [reflexivity|].
  rewrite entries_get.
  - now rewrite (groupsLoop_entries _ _ e _ _ _ _ _ _ L).
  - intros e' G. destruct (K e' [] G) as [Hn _]. now apply Hn.
Qed.

Lemma mapCpcodeAccgroup_lookup_witness :
  exists m var,
    buildMaps 10 Scenario.example = Ok (m, var) /\
    exists ags,
      listAccountGroups 10 Scenario.example = Ok ags /\
      Dict.get Z.eqb 100 (mapCpcodeAccgroup m)
      = match filed_under Scenario.example 100 ags with
        | [] => None
        | gids => Some gids
        end.
Proof.
  eexists _, _. split; [vm_compute; reflexivity|].
  eapply (mapCpcodeAccgroup_lookup 10 Scenario.example). vm_compute. reflexivity.
Defined.

End BranchesMore.
